(** * Storage engine of the distributed file system: allocators and
      the WAL-backed transaction manager

    A shallow embedding of [src/core/block_manager.cpp], [src/core/inode.cpp]
    and [src/core/transaction_manager.cpp].

    Conventions of the embedding.
    - [uint32_t] / [uint64_t] values are binary naturals ([N]); additions
      that the source performs in a fixed width are wrapped with [u32] /
      [u64].
    - [std::vector<bool>] is a [list bool] read and written by index; an
      index past the end is undefined behaviour in the source and is an
      [Undefined] outcome here.
    - A member function is a state transformer over the object it is called
      on.  A call ends in one of three ways: it returns, it leaves by a C++
      exception, or it reaches an operation whose behaviour the language
      leaves undefined.
    - A [std::mutex] member is a flag telling whether it is owned.  One
      thread runs one call at a time, so the flag is clear between calls;
      [std::lock_guard] sets it for the extent of a scope.  Locking a
      [std::mutex] that the calling thread already owns is undefined
      behaviour (on the usual implementations the thread blocks forever).
    - Calls to the logger (LOG_DEBUG and friends) write nothing the
      embedding keeps, but their argument is evaluated: the LOG_ macros
      pass the message to a member function of the logger.  Where building
      the message reads an object that the preceding statement destroyed,
      the call is the undefined operation [UseAfterFree]. *)

From Stdlib Require Import NArith Lia.
From stdpp Require Import base numbers list option strings gmap.

Local Open Scope N_scope.

(** ** Outcomes of a call *)

Module Cpp.

(** The exception classes of [include/utils/exceptions.h] that the modelled
    code throws. *)
Inductive Exn : Type :=
| FileSystemException (message : string)
| InodeNotFoundException (inode_num : N)
| BlockNotFoundException (block_id : N)
| InsufficientSpaceException (required available : N)
| TransactionNotFoundException (tx_id : N)
| TransactionAbortedException (tx_id : N) (reason : string).

Inductive UB : Type :=
| Relock        (* std::mutex::lock() by the thread that owns the mutex *)
| OutOfBounds   (* operator[] past the end of a std::vector *)
| DivByZero     (* x % 0 *)
| UseAfterFree. (* a read through a pointer to an object that was destroyed *)

Inductive outcome (S A : Type) : Type :=
| Ret (a : A) (s : S)        (* normal return, final state *)
| Throw (e : Exn) (s : S)    (* an exception leaves the call, final state *)
| Undefined (u : UB) (s : S) (* undefined operation reached in state s *).
Arguments Ret {S A} a s.
Arguments Throw {S A} e s.
Arguments Undefined {S A} u s.

Definition M (S A : Type) : Type := S -> outcome S A.

Definition ret {S A} (a : A) : M S A := fun s => Ret a s.

Definition bind {S A B} (m : M S A) (k : A -> M S B) : M S B :=
  fun s => match m s with
           | Ret a s' => k a s'
           | Throw e s' => Throw e s'
           | Undefined u s' => Undefined u s'
           end.

Definition throw {S A} (e : Exn) : M S A := fun s => Throw e s.
Definition undefined {S A} (u : UB) : M S A := fun s => Undefined u s.
Definition gets {S A} (f : S -> A) : M S A := fun s => Ret (f s) s.
Definition modify {S} (f : S -> S) : M S unit := fun s => Ret tt (f s).

(** [try { body } catch (const std::exception& e) { handler }]: every class
    in [Exn] derives from [std::exception]. *)
Definition try_catch {S A} (body : M S A) (handler : Exn -> M S A) : M S A :=
  fun s => match body s with
           | Throw e s' => handler e s'
           | r => r
           end.

(** [std::lock_guard<std::mutex> lock(m); body]: acquire on entry, release
    when the scope is left, by return or by exception. *)
Definition lock_guard {S A} (owned : S -> bool) (set_owned : bool -> S -> S)
    (body : M S A) : M S A :=
  fun s => if owned s then Undefined Relock s
           else match body (set_owned true s) with
                | Ret a s' => Ret a (set_owned false s')
                | Throw e s' => Throw e (set_owned false s')
                | Undefined u s' => Undefined u s'
                end.

(** A member function of a sub-object run on the enclosing object. *)
Definition zoom {S T A} (get : S -> T) (set : T -> S -> S) (m : M T A) : M S A :=
  fun s => match m (get s) with
           | Ret a t' => Ret a (set t' s)
           | Throw e t' => Throw e (set t' s)
           | Undefined u t' => Undefined u (set t' s)
           end.

(** Range-based [for] over a vector, with a body that does not [return]. *)
Fixpoint for_each {S A} (l : list A) (body : A -> M S unit) : M S unit :=
  match l with
  | [] => ret tt
  | x :: l' => bind (body x) (fun _ => for_each l' body)
  end.

(** The same call made [n] times in a row, results dropped. *)
Fixpoint times {S A} (n : nat) (m : M S A) : M S unit :=
  match n with
  | O => ret tt
  | Datatypes.S n' => bind m (fun _ => times n' m)
  end.

End Cpp.
Export Cpp.

Declare Scope cpp_scope.
Delimit Scope cpp_scope with cpp.
Notation "'let*' x ':=' m 'in' k" := (bind m (fun x => k))
  (at level 10, x name, m at level 100, k at level 200, only parsing) : cpp_scope.
Local Open Scope cpp_scope.

Definition UINT32_MAX : N := 4294967295.
Definition u32 (x : N) : N := x mod 2 ^ 32.
Definition u64 (x : N) : N := x mod 2 ^ 64.

(** [a % b] on unsigned operands. *)
Definition umod {S} (a b : N) : M S N :=
  if b =? 0 then undefined DivByZero else ret (a mod b).

(** The number of [true] entries of a bitmap, as the counting loops of
    [get_free_block_count] and [get_free_inode_count] compute it in a
    [uint32_t]. *)
Fixpoint count_free (bm : list bool) (count : N) : N :=
  match bm with
  | [] => count
  | is_free :: bm' => count_free bm' (if is_free then u32 (count + 1) else count)
  end.

(** ** Block manager ([src/core/block_manager.cpp]) *)

Module BlockManager.

Record t : Type := mk {
  block_bitmap_ : list bool;     (* true = free *)
  bitmap_mutex_ : bool;          (* true = owned *)
  total_blocks_ : N;
  block_size_ : N;
  next_free_block_ : N
}.

Definition set_bitmap (bm : list bool) (s : t) : t :=
  mk bm (bitmap_mutex_ s) (total_blocks_ s) (block_size_ s) (next_free_block_ s).
Definition set_mutex (b : bool) (s : t) : t :=
  mk (block_bitmap_ s) b (total_blocks_ s) (block_size_ s) (next_free_block_ s).
Definition set_next (n : N) (s : t) : t :=
  mk (block_bitmap_ s) (bitmap_mutex_ s) (total_blocks_ s) (block_size_ s) n.

(** [block_bitmap_[i]] as an rvalue and as the target of an assignment. *)
Definition bitmap_get (i : N) : M t bool :=
  fun s => match block_bitmap_ s !! N.to_nat i with
           | Some b => Ret b s
           | None => Undefined OutOfBounds s
           end.
Definition bitmap_set (i : N) (v : bool) : M t unit :=
  fun s => match block_bitmap_ s !! N.to_nat i with
           | Some _ => Ret tt (set_bitmap (<[N.to_nat i := v]> (block_bitmap_ s)) s)
           | None => Undefined OutOfBounds s
           end.

Definition with_lock {A} (body : M t A) : M t A :=
  lock_guard bitmap_mutex_ set_mutex body.

(** Constructor: every block free, block 0 reserved for the superblock. *)
Definition new (total_blocks block_size : N) : t :=
  let bm := replicate (N.to_nat total_blocks) true in
  if 0 <? total_blocks
  then mk (<[0%nat := false]> bm) false total_blocks block_size 1
  else mk bm false total_blocks block_size 0.

(** [for (i = from; ...; ++i) if (block_bitmap_[i]) return i;] run for [n]
    iterations; [None] when the loop falls through. *)
Fixpoint scan_free (i : N) (n : nat) : M t (option N) :=
  match n with
  | O => ret None
  | S n' =>
      let* is_free := bitmap_get i in
      if is_free : bool then ret (Some i) else scan_free (i + 1) n'
  end.

Definition find_next_free_block (start_index : N) : M t N :=
  let* total := gets total_blocks_ in
  let* r := scan_free start_index (N.to_nat (total - start_index)) in
  match r with
  | Some i => ret i
  | None =>
      let* r := scan_free 0 (N.to_nat start_index) in
      match r with
      | Some i => ret i
      | None => ret UINT32_MAX
      end
  end.

Definition get_free_block_count : M t N :=
  with_lock (let* bm := gets block_bitmap_ in ret (count_free bm 0)).

Definition allocate_block : M t N :=
  with_lock (
    let* hint := gets next_free_block_ in
    let* block_id := find_next_free_block hint in
    if block_id =? UINT32_MAX then
      let* available := get_free_block_count in
      throw (InsufficientSpaceException 1 available)
    else
      let* _ := bitmap_set block_id false in
      let* total := gets total_blocks_ in
      let* next := umod (u32 (block_id + 1)) total in
      let* _ := modify (set_next next) in
      ret block_id).

(** The inner loop of the contiguous path: mark [count] blocks from
    [start_block], wrapping at [total_blocks_]. *)
Fixpoint take_run (start_block j : N) (n : nat) (allocated_blocks : list N)
    : M t (list N) :=
  match n with
  | O => ret allocated_blocks
  | S n' =>
      let* total := gets total_blocks_ in
      let* block_id := umod (u32 (start_block + j)) total in
      let* _ := bitmap_set block_id false in
      take_run start_block (j + 1) n' (allocated_blocks ++ [block_id])
  end.

(** The search for [count] consecutive free blocks, [n] iterations left;
    [Some blocks] when the loop returns from inside. *)
Fixpoint find_run (count : N) (n : nat)
    (start_block consecutive_count current_block : N) : M t (option (list N)) :=
  match n with
  | O => ret None
  | S n' =>
      let* total := gets total_blocks_ in
      let* is_free := bitmap_get current_block in
      if is_free : bool then
        let consecutive_count := u32 (consecutive_count + 1) in
        if consecutive_count =? count then
          let* blocks := take_run start_block 0 (N.to_nat count) [] in
          let* next := umod (u32 (start_block + count)) total in
          let* _ := modify (set_next next) in
          ret (Some blocks)
        else
          let* current_block := umod (u32 (current_block + 1)) total in
          find_run count n' start_block consecutive_count current_block
      else
        let* start_block := umod (u32 (current_block + 1)) total in
        let* current_block := umod (u32 (current_block + 1)) total in
        find_run count n' start_block 0 current_block
  end.

(** The fallback loop: one block at a time, undoing the marks of this call
    when the bitmap runs dry. *)
Fixpoint allocate_individually (count : N) (n : nat) (allocated_blocks : list N)
    : M t (list N) :=
  match n with
  | O => ret allocated_blocks
  | S n' =>
      let* hint := gets next_free_block_ in
      let* block_id := find_next_free_block hint in
      if block_id =? UINT32_MAX then
        let* _ := for_each allocated_blocks (fun allocated_block =>
          bitmap_set allocated_block true) in
        let* available := get_free_block_count in
        throw (InsufficientSpaceException count available)
      else
        let* _ := bitmap_set block_id false in
        let* total := gets total_blocks_ in
        let* next := umod (u32 (block_id + 1)) total in
        let* _ := modify (set_next next) in
        allocate_individually count n' (allocated_blocks ++ [block_id])
  end.

Definition allocate_blocks (count : N) : M t (list N) :=
  if count =? 0 then ret []
  else with_lock (
    let* start_block := gets next_free_block_ in
    let* total := gets total_blocks_ in
    let* r := find_run count (N.to_nat total) start_block 0 start_block in
    match r with
    | Some blocks => ret blocks
    | None => allocate_individually count (N.to_nat count) []
    end).

Definition deallocate_block (block_id : N) : M t unit :=
  let* total := gets total_blocks_ in
  if total <=? block_id then throw (BlockNotFoundException block_id)
  else with_lock (
    let* is_free := bitmap_get block_id in
    if is_free : bool then ret tt
    else bitmap_set block_id true).

Definition deallocate_blocks (block_ids : list N) : M t unit :=
  with_lock (
    for_each block_ids (fun block_id =>
      let* total := gets total_blocks_ in
      if total <=? block_id then ret tt
      else
        let* is_free := bitmap_get block_id in
        if negb is_free then bitmap_set block_id true else ret tt)).

(** [is_block_free] takes no lock. *)
Definition is_block_free (block_id : N) : M t bool :=
  let* total := gets total_blocks_ in
  if total <=? block_id then ret false
  else bitmap_get block_id.

Definition mark_block_used (block_id : N) : M t unit :=
  let* total := gets total_blocks_ in
  if total <=? block_id then throw (BlockNotFoundException block_id)
  else with_lock (bitmap_set block_id false).

Definition mark_block_free (block_id : N) : M t unit :=
  let* total := gets total_blocks_ in
  if total <=? block_id then throw (BlockNotFoundException block_id)
  else with_lock (bitmap_set block_id true).

(** [is_valid]: the bitmap has one entry per block and block 0 is not
    free. *)
Definition is_valid : M t bool :=
  with_lock (
    let* bm := gets block_bitmap_ in
    let* total := gets total_blocks_ in
    if negb (N.of_nat (length bm) =? total) then ret false
    else if 0 <? total then
      let* b0 := bitmap_get 0 in
      if b0 : bool then ret false else ret true
    else ret true).

(** The counting loop of [defragment_blocks]. *)
Fixpoint count_used (bm : list bool) (used_count : N) : N :=
  match bm with
  | [] => used_count
  | is_free :: bm' =>
      count_used bm' (if is_free then used_count else u32 (used_count + 1))
  end.

(** [for (i = ...; ...; ++i) new_bitmap[i] = false;] on the local vector,
    [n] iterations left; [None] when an index is past its end. *)
Fixpoint clear_bits (new_bitmap : list bool) (i : N) (n : nat) : option (list bool) :=
  match n with
  | O => Some new_bitmap
  | S n' =>
      match new_bitmap !! N.to_nat i with
      | Some _ => clear_bits (<[N.to_nat i := false]> new_bitmap) (i + 1) n'
      | None => None
      end
  end.

Definition defragment_blocks : M t unit :=
  with_lock (fun s =>
    let new_bitmap := replicate (N.to_nat (total_blocks_ s)) true in
    let used_count := count_used (block_bitmap_ s) 0 in
    match clear_bits new_bitmap 0 (N.to_nat used_count) with
    | Some new_bitmap => Ret tt (set_next used_count (set_bitmap new_bitmap s))
    | None => Undefined OutOfBounds s
    end).

End BlockManager.

(** ** Inode table ([src/core/inode.cpp], [include/core/inode.h]) *)

Module Inode.

(** The [Inode] record of [include/core/inode.h]. *)
Record t : Type := mk {
  mode : N; uid : N; gid : N;
  size : N; blocks : N;
  atime : N; mtime : N; ctime : N;
  direct_blocks : list N;
  indirect_block : N; double_indirect : N; triple_indirect : N;
  replication_count : N; checksum : N; link_count : N;
  padding : list N
}.

(** [Inode::Inode()]. *)
Definition default : t :=
  {| mode := 0; uid := 0; gid := 0; size := 0; blocks := 0;
     atime := 0; mtime := 0; ctime := 0;
     direct_blocks := replicate 12 0;
     indirect_block := 0; double_indirect := 0; triple_indirect := 0;
     replication_count := 1; checksum := 0; link_count := 0;
     padding := replicate 32 0 |}.

End Inode.

Module InodeTable.

Record t : Type := mk {
  inodes_ : list Inode.t;
  free_inodes_ : list bool;      (* true = free *)
  table_mutex_ : bool;           (* true = owned *)
  next_free_inode_ : N
}.

Definition set_inodes (l : list Inode.t) (s : t) : t :=
  mk l (free_inodes_ s) (table_mutex_ s) (next_free_inode_ s).
Definition set_free (bm : list bool) (s : t) : t :=
  mk (inodes_ s) bm (table_mutex_ s) (next_free_inode_ s).
Definition set_mutex (b : bool) (s : t) : t :=
  mk (inodes_ s) (free_inodes_ s) b (next_free_inode_ s).
Definition set_next (n : N) (s : t) : t :=
  mk (inodes_ s) (free_inodes_ s) (table_mutex_ s) n.

Definition free_get (i : N) : M t bool :=
  fun s => match free_inodes_ s !! N.to_nat i with
           | Some b => Ret b s
           | None => Undefined OutOfBounds s
           end.
Definition free_set (i : N) (v : bool) : M t unit :=
  fun s => match free_inodes_ s !! N.to_nat i with
           | Some _ => Ret tt (set_free (<[N.to_nat i := v]> (free_inodes_ s)) s)
           | None => Undefined OutOfBounds s
           end.
Definition inode_set (i : N) (v : Inode.t) : M t unit :=
  fun s => match inodes_ s !! N.to_nat i with
           | Some _ => Ret tt (set_inodes (<[N.to_nat i := v]> (inodes_ s)) s)
           | None => Undefined OutOfBounds s
           end.

(** [free_inodes_.size()]. *)
Definition free_size (s : t) : N := N.of_nat (length (free_inodes_ s)).

Definition with_lock {A} (body : M t A) : M t A :=
  lock_guard table_mutex_ set_mutex body.

(** Constructor: inode 0 (invalid) and inode 1 (root) are taken. *)
Definition new (max_inodes : N) : t :=
  let n := N.to_nat max_inodes in
  let bm := replicate n true in
  let bm := if 0 <? max_inodes then <[0%nat := false]> bm else bm in
  let bm := if 1 <? max_inodes then <[1%nat := false]> bm else bm in
  mk (replicate n Inode.default) bm false 1.

Definition get_free_inode_count : M t N :=
  with_lock (let* bm := gets free_inodes_ in ret (count_free bm 0)).

(** One of the two search loops of [allocate_inode], [n] iterations left:
    take the first free index at or after [i]; [None] when the loop falls
    through. *)
Fixpoint take_first_free (i : N) (n : nat) : M t (option N) :=
  match n with
  | O => ret None
  | S n' =>
      let* is_free := free_get i in
      if is_free : bool then
        let* _ := free_set i false in
        let* sz := gets free_size in
        let* next := umod (u32 (i + 1)) sz in
        let* _ := modify (set_next next) in
        ret (Some i)
      else take_first_free (i + 1) n'
  end.

Definition allocate_inode : M t N :=
  with_lock (
    let* hint := gets next_free_inode_ in
    let* sz := gets free_size in
    let* r := take_first_free hint (N.to_nat (sz - hint)) in
    match r with
    | Some i => ret i
    | None =>
        (* wrap around: for (i = 1; i < next_free_inode_; ++i) *)
        let* r := take_first_free 1 (N.to_nat (hint - 1)) in
        match r with
        | Some i => ret i
        | None =>
            let* available := get_free_inode_count in
            throw (InsufficientSpaceException 1 available)
        end
    end).

Definition deallocate_inode (inode_num : N) : M t unit :=
  let* sz := gets free_size in
  if sz <=? inode_num then throw (InodeNotFoundException inode_num)
  else with_lock (
    let* is_free := free_get inode_num in
    if is_free : bool then ret tt
    else
      let* _ := free_set inode_num true in
      inode_set inode_num Inode.default).

(** [is_inode_free] takes no lock. *)
Definition is_inode_free (inode_num : N) : M t bool :=
  let* sz := gets free_size in
  if sz <=? inode_num then ret false
  else free_get inode_num.

(** [get_inode] takes no lock.  The pointer it returns is the index of
    the record; the embedding hands back the record with it. *)
Definition get_inode (inode_num : N) : M t (N * Inode.t) :=
  let* inodes := gets inodes_ in
  if N.of_nat (length inodes) <=? inode_num then
    throw (InodeNotFoundException inode_num)
  else
    let* is_free := free_get inode_num in
    if is_free : bool then throw (InodeNotFoundException inode_num)
    else
      match inodes !! N.to_nat inode_num with
      | Some inode => ret (inode_num, inode)
      | None => undefined OutOfBounds
      end.

Definition get_total_inode_count (s : t) : N := u32 (N.of_nat (length (inodes_ s))).

End InodeTable.


(** ** File streams

    Bytes are numbers below 256.  An output stream keeps what was written
    and not yet flushed; the file itself belongs to whoever owns the
    stream.  A write goes to the buffer of the stream, which is taken to
    hold it, so a write fails only through the state bits the stream
    already carries; the device is reached when the stream is flushed. *)

Definition byte : Type := N.

(** The object representation of an unsigned integer of [n] bytes, which
    [serialize] writes as it lies in memory: least significant byte first on
    the little-endian hosts the project builds for.  [le_value] is the
    inverse. *)
Fixpoint le_bytes (n : nat) (v : N) : list byte :=
  match n with
  | O => []
  | S n' => v mod 256 :: le_bytes n' (v / 256)
  end.

Fixpoint le_value (bs : list byte) : N :=
  match bs with
  | [] => 0
  | b :: bs' => b + 256 * le_value bs'
  end.

Module ofstream.

Record t : Type := mk {
  is_open : bool;
  fail : bool;              (* failbit or badbit *)
  pending : list byte       (* written, not yet flushed *)
}.

(** [file.write(p, n)]: nothing is written once the stream has failed. *)
Definition write (bs : list byte) : M t unit :=
  fun f => if fail f then Ret tt f
           else Ret tt (mk (is_open f) (fail f) (pending f ++ bs)).

End ofstream.

Module ifstream.

Record t : Type := mk {
  is_open : bool;
  data : list byte;         (* the bytes not yet read *)
  eofbit : bool;
  failbit : bool;
  gcount : N                (* characters extracted by the last read *)
}.

Definition good (f : t) : bool := negb (eofbit f) && negb (failbit f).
Definition eof (f : t) : bool := eofbit f.
Definition fail (f : t) : bool := failbit f.

(** [file.read(buf, n)] into a buffer that holds [old]: the bytes extracted
    overwrite the front of the buffer.  A stream that is not good extracts
    nothing and sets failbit; a short read sets eofbit and failbit. *)
Definition read (n : nat) (old : list byte) : M t (list byte) :=
  fun f =>
    if good f then
      let got := take n (data f) in
      let short := (length got <? n)%nat in
      Ret (got ++ drop (length got) old)
          (mk (is_open f) (drop n (data f))
              (eofbit f || short) (failbit f || short) (N.of_nat (length got)))
    else Ret old (mk (is_open f) (data f) (eofbit f) true 0).

End ifstream.

(** ** WAL records ([LogEntry] of [src/core/transaction_manager.cpp]) *)

Module LogEntry.

Record t : Type := mk {
  transaction_id : N;       (* uint64_t *)
  operation_type : N;       (* uint32_t *)
  inode_number : N;         (* uint32_t *)
  block_number : N;         (* uint32_t *)
  timestamp : N;            (* uint64_t *)
  checksum : N;             (* uint32_t *)
  old_data : list byte;
  new_data : list byte
}.

(** [LogEntry::LogEntry()]. *)
Definition default : t := mk 0 0 0 0 0 0 [] [].

Definition set_checksum (c : N) (e : t) : t :=
  mk (transaction_id e) (operation_type e) (inode_number e) (block_number e)
     (timestamp e) c (old_data e) (new_data e).

(** One round of the payload loops of [update_checksum]. *)
Definition checksum_step (temp_checksum : N) (b : byte) : N :=
  let temp_checksum := N.lxor (u32 (N.shiftl temp_checksum 1)) b in
  if N.land temp_checksum 0x80000000 =? 0 then temp_checksum
  else N.lxor temp_checksum 0x04C11DB7.

Definition update_checksum (e : t) : t :=
  let temp_checksum := 0 in
  let temp_checksum := N.lxor temp_checksum (u32 (transaction_id e)) in
  let temp_checksum := N.lxor temp_checksum (u32 (N.shiftr (transaction_id e) 32)) in
  let temp_checksum := N.lxor temp_checksum (operation_type e) in
  let temp_checksum := N.lxor temp_checksum (inode_number e) in
  let temp_checksum := N.lxor temp_checksum (block_number e) in
  let temp_checksum := N.lxor temp_checksum (u32 (timestamp e)) in
  let temp_checksum := N.lxor temp_checksum (u32 (N.shiftr (timestamp e) 32)) in
  let temp_checksum := fold_left checksum_step (old_data e) temp_checksum in
  let temp_checksum := fold_left checksum_step (new_data e) temp_checksum in
  set_checksum temp_checksum e.

Definition is_valid (e : t) : bool :=
  let temp := update_checksum (set_checksum 0 e) in
  checksum e =? checksum temp.

(** The bytes [serialize] writes for a record. *)
Definition encode (e : t) : list byte :=
  let old_data_size := u32 (N.of_nat (length (old_data e))) in
  let new_data_size := u32 (N.of_nat (length (new_data e))) in
  le_bytes 8 (transaction_id e) ++ le_bytes 4 (operation_type e) ++
  le_bytes 4 (inode_number e) ++ le_bytes 4 (block_number e) ++
  le_bytes 8 (timestamp e) ++ le_bytes 4 (checksum e) ++
  le_bytes 4 old_data_size ++ take (N.to_nat old_data_size) (old_data e) ++
  le_bytes 4 new_data_size ++ take (N.to_nat new_data_size) (new_data e).

Definition serialize (e : t) : M ofstream.t unit :=
  let* is_open := gets ofstream.is_open in
  if negb is_open then
    throw (FileSystemException "Cannot serialize LogEntry: file not open")
  else
    let* _ := ofstream.write (encode e) in
    let* failed := gets ofstream.fail in
    if failed : bool then throw (FileSystemException "Failed to serialize LogEntry")
    else ret tt.

(** [deserialize], started on a default-constructed record as the replay
    loop does. *)
Definition deserialize : M ifstream.t t :=
  let* is_open := gets ifstream.is_open in
  if negb is_open then
    throw (FileSystemException "Cannot deserialize LogEntry: file not open")
  else
    let* transaction_id := ifstream.read 8 (le_bytes 8 0) in
    let* operation_type := ifstream.read 4 (le_bytes 4 0) in
    let* inode_number := ifstream.read 4 (le_bytes 4 0) in
    let* block_number := ifstream.read 4 (le_bytes 4 0) in
    let* timestamp := ifstream.read 8 (le_bytes 8 0) in
    let* checksum := ifstream.read 4 (le_bytes 4 0) in
    let* failed := gets ifstream.fail in
    let* gcount := gets ifstream.gcount in
    if failed || negb (gcount =? 8 + 4 + 4 + 4 + 8 + 4) then
      throw (FileSystemException "Failed to deserialize LogEntry header")
    else
      let* old_data_size := ifstream.read 4 (le_bytes 4 0) in
      let old_data_size := le_value old_data_size in
      let* failed := gets ifstream.fail in
      let* gcount := gets ifstream.gcount in
      if failed || negb (gcount =? 4) then
        throw (FileSystemException "Failed to deserialize LogEntry old_data_size")
      else
        let* old_data :=
          if 0 <? old_data_size then
            let* old_data := ifstream.read (N.to_nat old_data_size)
                               (replicate (N.to_nat old_data_size) 0) in
            let* failed := gets ifstream.fail in
            let* gcount := gets ifstream.gcount in
            if failed || negb (gcount =? old_data_size) then
              throw (FileSystemException "Failed to deserialize LogEntry old_data")
            else ret old_data
          else ret [] in
        let* new_data_size := ifstream.read 4 (le_bytes 4 0) in
        let new_data_size := le_value new_data_size in
        let* failed := gets ifstream.fail in
        let* gcount := gets ifstream.gcount in
        if failed || negb (gcount =? 4) then
          throw (FileSystemException "Failed to deserialize LogEntry new_data_size")
        else
          let* new_data :=
            if 0 <? new_data_size then
              let* new_data := ifstream.read (N.to_nat new_data_size)
                                 (replicate (N.to_nat new_data_size) 0) in
              let* failed := gets ifstream.fail in
              let* gcount := gets ifstream.gcount in
              if failed || negb (gcount =? new_data_size) then
                throw (FileSystemException "Failed to deserialize LogEntry new_data")
              else ret new_data
            else ret [] in
          ret (mk (le_value transaction_id) (le_value operation_type)
                  (le_value inode_number) (le_value block_number)
                  (le_value timestamp) (le_value checksum) old_data new_data).

End LogEntry.

(** ** Data blocks ([DataBlock] of [src/core/block_manager.cpp]) *)

Module DataBlock.

Record t : Type := mk {
  data_ : list byte;
  block_id_ : N;
  block_size_ : N;
  data_mutex_ : bool           (* true = owned *)
}.

Definition set_data (d : list byte) (s : t) : t :=
  mk d (block_id_ s) (block_size_ s) (data_mutex_ s).
Definition set_mutex (b : bool) (s : t) : t :=
  mk (data_ s) (block_id_ s) (block_size_ s) b.

Definition with_lock {A} (body : M t A) : M t A :=
  lock_guard data_mutex_ set_mutex body.

(** Constructor: [block_size] zero bytes. *)
Definition new (block_id block_size : N) : t :=
  mk (replicate (N.to_nat block_size) 0) block_id block_size false.

(** [read_data(offset, size)]; the iterator range of the result must lie
    inside [data_]. *)
Definition read_data (offset size : N) : M t (list byte) :=
  with_lock (
    let* block_size := gets block_size_ in
    if block_size <=? offset then ret []
    else
      let size := if size =? 0 then block_size - offset else size in
      let size := N.min size (block_size - offset) in
      let* data := gets data_ in
      if N.of_nat (length data) <? offset + size then undefined OutOfBounds
      else ret (take (N.to_nat size) (drop (N.to_nat offset) data))).

(** [write_data(data, offset)]; [offset + data.size()] is computed in
    [size_t] and does not wrap. *)
Definition write_data (data : list byte) (offset : N) : M t bool :=
  with_lock (
    let* block_size := gets block_size_ in
    if block_size <=? offset then ret false
    else if block_size <? offset + N.of_nat (length data) then ret false
    else
      let* old := gets data_ in
      if N.of_nat (length old) <? offset + N.of_nat (length data) then
        undefined OutOfBounds
      else
        let* _ := modify (set_data (take (N.to_nat offset) old ++ data ++
                                    drop (N.to_nat offset + length data) old)) in
        ret true).

Definition clear : M t unit :=
  with_lock (modify (fun s => set_data (replicate (length (data_ s)) 0) s)).

(** The backward scan of [get_data_size] over the first [n] bytes: one past
    the index of the last byte that is not zero, 0 when there is none. *)
Fixpoint last_nonzero (data : list byte) (n : nat) : N :=
  match n with
  | O => 0
  | S n' =>
      match data !! n' with
      | Some b => if b =? 0 then last_nonzero data n' else N.of_nat n' + 1
      | None => last_nonzero data n'
      end
  end.

(** [get_data_size]: the loop index is an [int] initialised from
    [data_.size() - 1]; past [2^31] bytes it starts negative and the loop
    does not run. *)
Definition get_data_size : M t N :=
  with_lock (
    let* data := gets data_ in
    if 2 ^ 31 <? N.of_nat (length data) then ret 0
    else ret (last_nonzero data (length data))).

Definition is_empty : M t bool :=
  with_lock (
    let* data := gets data_ in
    ret (forallb (fun b => b =? 0) data)).

(** [serialize] writes [block_size_] bytes from [data_.data()]. *)
Definition serialize (s : t) : M ofstream.t unit :=
  let* is_open := gets ofstream.is_open in
  if negb is_open then
    throw (FileSystemException "Cannot serialize DataBlock: file not open")
  else if data_mutex_ s then undefined Relock
  else if N.of_nat (length (data_ s)) <? block_size_ s then undefined OutOfBounds
  else
    let* _ := ofstream.write (le_bytes 4 (block_id_ s) ++ le_bytes 4 (block_size_ s) ++
                              take (N.to_nat (block_size_ s)) (data_ s)) in
    let* failed := gets ofstream.fail in
    if failed : bool then throw (FileSystemException "Failed to serialize DataBlock")
    else ret tt.

(** [deserialize] from the stream [f]: the outcome carries the block, the
    stream as it is left comes with a normal return. *)
Definition deserialize (f : ifstream.t) : M t ifstream.t :=
  if negb (ifstream.is_open f) then
    throw (FileSystemException "Cannot deserialize DataBlock: file not open")
  else
    with_lock (
      match ifstream.read 4 (le_bytes 4 0) f with
      | Ret file_block_id f1 =>
          match ifstream.read 4 (le_bytes 4 0) f1 with
          | Ret file_block_size f2 =>
              let file_block_size := le_value file_block_size in
              if ifstream.fail f2 || negb (ifstream.gcount f2 =? 4 + 4) then
                throw (FileSystemException "Failed to deserialize DataBlock metadata")
              else
                let* block_size := gets block_size_ in
                if negb (file_block_size =? block_size) then
                  throw (FileSystemException "DataBlock size mismatch")
                else
                  let* old := gets data_ in
                  (* data_.resize(file_block_size), then read into it *)
                  let buffer := take (N.to_nat file_block_size)
                                  (old ++ replicate (N.to_nat file_block_size) 0) in
                  match ifstream.read (N.to_nat file_block_size) buffer f2 with
                  | Ret data f3 =>
                      let* _ := modify (set_data data) in
                      if ifstream.fail f3 || negb (ifstream.gcount f3 =? file_block_size) then
                        throw (FileSystemException "Failed to deserialize DataBlock data")
                      else ret f3
                  | Throw e _ => throw e
                  | Undefined u _ => undefined u
                  end
          | Throw e _ => throw e
          | Undefined u _ => undefined u
          end
      | Throw e _ => throw e
      | Undefined u _ => undefined u
      end).

End DataBlock.

(** ** Transactions and the transaction manager
       ([src/core/transaction_manager.cpp]) *)

Module Transaction.

Record t : Type := mk {
  transaction_id : N;
  log_entries : list LogEntry.t;     (* staged records, in staging order *)
  start_time : N;
  is_active : bool;
  is_committed : bool;
  is_aborted : bool
}.

(** [Transaction::Transaction(tx_id)], the clock reading passed in. *)
Definition new (tx_id now : N) : t := mk tx_id [] now true false false.

Definition add_log_entry (entry : LogEntry.t) (tx : t) : t :=
  mk (transaction_id tx) (log_entries tx ++ [entry]) (start_time tx)
     (is_active tx) (is_committed tx) (is_aborted tx).

(** [is_committed.store(true); is_active.store(false)]. *)
Definition mark_committed (tx : t) : t :=
  mk (transaction_id tx) (log_entries tx) (start_time tx)
     false true (is_aborted tx).

(** [is_aborted.store(true); is_active.store(false)]. *)
Definition mark_aborted (tx : t) : t :=
  mk (transaction_id tx) (log_entries tx) (start_time tx)
     false (is_committed tx) true.

End Transaction.

Module TransactionManager.

Record t : Type := mk {
  wal_file : list byte;        (* contents of the file at log_file_path_ *)
  wal_readable : bool;         (* whether that file can be opened for reading *)
  log_file_ : ofstream.t;      (* the stream appending to it *)
  active_transactions_ : gmap N Transaction.t;
  next_transaction_id_ : N;
  transaction_mutex_ : bool;   (* true = owned *)
  log_mutex_ : bool;           (* true = owned *)
  device_full : bool           (* the device under the log file has no room left *)
}.

Definition set_wal_file (w : list byte) (s : t) : t :=
  mk w (wal_readable s) (log_file_ s) (active_transactions_ s)
     (next_transaction_id_ s) (transaction_mutex_ s) (log_mutex_ s) (device_full s).
Definition set_log_file (f : ofstream.t) (s : t) : t :=
  mk (wal_file s) (wal_readable s) f (active_transactions_ s)
     (next_transaction_id_ s) (transaction_mutex_ s) (log_mutex_ s) (device_full s).
Definition set_active (m : gmap N Transaction.t) (s : t) : t :=
  mk (wal_file s) (wal_readable s) (log_file_ s) m
     (next_transaction_id_ s) (transaction_mutex_ s) (log_mutex_ s) (device_full s).
Definition set_next_id (n : N) (s : t) : t :=
  mk (wal_file s) (wal_readable s) (log_file_ s) (active_transactions_ s)
     n (transaction_mutex_ s) (log_mutex_ s) (device_full s).
Definition set_transaction_mutex (b : bool) (s : t) : t :=
  mk (wal_file s) (wal_readable s) (log_file_ s) (active_transactions_ s)
     (next_transaction_id_ s) b (log_mutex_ s) (device_full s).
Definition set_log_mutex (b : bool) (s : t) : t :=
  mk (wal_file s) (wal_readable s) (log_file_ s) (active_transactions_ s)
     (next_transaction_id_ s) (transaction_mutex_ s) b (device_full s).
(** The environment: the device runs out of room, or gets room again. *)
Definition set_device_full (b : bool) (s : t) : t :=
  mk (wal_file s) (wal_readable s) (log_file_ s) (active_transactions_ s)
     (next_transaction_id_ s) (transaction_mutex_ s) (log_mutex_ s) b.

(** Constructor, for a log file that holds [existing] and opens, on a
    device that has room. *)
Definition new (existing : list byte) : t :=
  mk existing true (ofstream.mk true false []) ∅ 1 false false false.

(** [log_file_.flush()]: hand the pending bytes to the file.  On a stream
    that has failed the call does nothing.  A device without room refuses
    the bytes handed to it: the file does not grow and the stream gets
    badbit.  [flush] reports this through the stream state only, which no
    caller in the source reads after the call. *)
Definition flush : M t unit :=
  fun s =>
    let f := log_file_ s in
    if ofstream.fail f then Ret tt s
    else if device_full s && negb (bool_decide (ofstream.pending f = [])) then
      Ret tt (set_log_file (ofstream.mk (ofstream.is_open f) true (ofstream.pending f)) s)
    else Ret tt (set_log_file (ofstream.mk (ofstream.is_open f) (ofstream.fail f) [])
                   (set_wal_file (wal_file s ++ ofstream.pending f) s)).

(** [generate_transaction_id]: [next_transaction_id_.fetch_add(1)]. *)
Definition generate_transaction_id : M t N :=
  let* id := gets next_transaction_id_ in
  let* _ := modify (set_next_id (u64 (id + 1))) in
  ret id.

Definition begin_transaction (now : N) : M t N :=
  lock_guard transaction_mutex_ set_transaction_mutex (
    let* tx_id := generate_transaction_id in
    let* _ := modify (fun s =>
      set_active (<[tx_id := Transaction.new tx_id now]> (active_transactions_ s)) s) in
    ret tx_id).

Definition write_log_entry (entry : LogEntry.t) : M t unit :=
  lock_guard log_mutex_ set_log_mutex (
    let* f := gets log_file_ in
    if negb (ofstream.is_open f) then
      throw (FileSystemException "Transaction log file is not open")
    else
      let* _ := zoom log_file_ set_log_file (LogEntry.serialize entry) in
      flush).

(** A store through the [Transaction*] obtained from the map. *)
Definition update_transaction (tx_id : N) (f : Transaction.t -> Transaction.t)
    : M t unit :=
  modify (fun s => set_active (alter f tx_id (active_transactions_ s)) s).

Definition erase (tx_id : N) : M t unit :=
  modify (fun s => set_active (delete tx_id (active_transactions_ s)) s).

(** [LOG_DEBUG(... + std::to_string(transaction->log_entries.size()) + ...)]
    as [commit_transaction] and [rollback_transaction] call it right after
    [active_transactions_.erase(it)]: the map owned the [Transaction]
    through a [unique_ptr], so [erase] destroyed the object that
    [transaction] points to, and the argument of the macro reads it. *)
Definition log_erased_transaction : M t unit := undefined UseAfterFree.

Definition commit_transaction (tx_id : N) : M t bool :=
  lock_guard transaction_mutex_ set_transaction_mutex (
    let* it := gets (fun s => active_transactions_ s !! tx_id) in
    match it with
    | None => throw (TransactionNotFoundException tx_id)
    | Some transaction =>
        if Transaction.is_aborted transaction then ret false
        else if Transaction.is_committed transaction then ret true
        else
          try_catch (
            let* _ := for_each (Transaction.log_entries transaction) write_log_entry in
            let* _ := update_transaction tx_id Transaction.mark_committed in
            let* _ := erase tx_id in
            let* _ := log_erased_transaction in
            ret true)
          (fun _ =>
            let* _ := update_transaction tx_id Transaction.mark_aborted in
            ret false)
    end).

Definition rollback_transaction (tx_id : N) : M t bool :=
  lock_guard transaction_mutex_ set_transaction_mutex (
    let* it := gets (fun s => active_transactions_ s !! tx_id) in
    match it with
    | None => throw (TransactionNotFoundException tx_id)
    | Some transaction =>
        if Transaction.is_committed transaction then ret false
        else if Transaction.is_aborted transaction then ret true
        else
          let* _ := update_transaction tx_id Transaction.mark_aborted in
          let* _ := erase tx_id in
          let* _ := log_erased_transaction in
          ret true
    end).

Definition is_transaction_active (tx_id : N) : M t bool :=
  lock_guard transaction_mutex_ set_transaction_mutex (
    let* it := gets (fun s => active_transactions_ s !! tx_id) in
    match it with
    | None => ret false
    | Some transaction => ret (Transaction.is_active transaction)
    end).

Definition add_log_entry (tx_id : N) (entry : LogEntry.t) : M t unit :=
  lock_guard transaction_mutex_ set_transaction_mutex (
    let* it := gets (fun s => active_transactions_ s !! tx_id) in
    match it with
    | None => throw (TransactionNotFoundException tx_id)
    | Some transaction =>
        if negb (Transaction.is_active transaction) then
          throw (TransactionAbortedException tx_id "Transaction is not active")
        else
          let entry_copy := LogEntry.update_checksum entry in
          update_transaction tx_id (Transaction.add_log_entry entry_copy)
    end).

Definition checkpoint : M t unit :=
  lock_guard log_mutex_ set_log_mutex (
    let* f := gets log_file_ in
    if ofstream.is_open f then flush else ret tt).

(** The locals of [replay_log_entries]. *)
Record replay_frame : Type := mk_frame {
  log_file : ifstream.t;
  replayed_entries : N
}.

Definition set_frame_file (f : ifstream.t) (fr : replay_frame) : replay_frame :=
  mk_frame f (replayed_entries fr).
Definition count_replayed (fr : replay_frame) : replay_frame :=
  mk_frame (log_file fr) (u32 (replayed_entries fr + 1)).

(** The [while (log_file.good() && !log_file.eof())] loop, at most [fuel]
    iterations. *)
Fixpoint replay_loop (fuel : nat) : M replay_frame unit :=
  match fuel with
  | O => ret tt
  | S fuel' =>
      let* f := gets log_file in
      if ifstream.good f && negb (ifstream.eof f) then
        let* entry := zoom log_file set_frame_file LogEntry.deserialize in
        let* f := gets log_file in
        let* _ :=
          if ifstream.good f then
            if LogEntry.is_valid entry then modify count_replayed
            else ret tt
          else ret tt in
        replay_loop fuel'
      else ret tt
  end.

(** [replay_log_entries] returns nothing in the source; the embedding
    returns the counter that its last statement reports.  The bound on the
    iterations is never reached ([replay_loop_fuel] below). *)
Definition replay_log_entries : M t N :=
  fun s =>
    if negb (wal_readable s) then Ret 0 s
    else
      let frame := mk_frame (ifstream.mk true (wal_file s) false false 0) 0 in
      match try_catch (replay_loop (S (length (wal_file s)))) (fun _ => ret tt) frame with
      | Ret _ fr => Ret (replayed_entries fr) s
      | Throw e fr => Throw e s
      | Undefined u fr => Undefined u s
      end.

(** [recover]: the handler logs and rethrows. *)
Definition recover : M t unit :=
  try_catch (let* _ := replay_log_entries in ret tt) (fun e => throw e).


Definition get_active_transaction_count : M t N :=
  lock_guard transaction_mutex_ set_transaction_mutex (
    gets (fun s => u32 (N.of_nat (size (active_transactions_ s))))).

End TransactionManager.

(** [TransactionGuard].  The guard is a value passed to and returned by its
    member functions; the manager it points to is the state, and
    [manager_] tells whether the pointer is not null. *)
Module TransactionGuard.

Record t : Type := mk {
  manager_ : bool;
  transaction_id_ : N;
  committed_ : bool
}.

(** Constructor on a manager, the clock reading passed in. *)
Definition new (now : N) : M TransactionManager.t t :=
  let* tx_id := TransactionManager.begin_transaction now in
  ret (mk true tx_id false).

(** Destructor: an exception of the rollback is logged, not propagated. *)
Definition destroy (g : t) : M TransactionManager.t unit :=
  if manager_ g && negb (committed_ g) then
    try_catch
      (let* _ := TransactionManager.rollback_transaction (transaction_id_ g) in ret tt)
      (fun _ => ret tt)
  else ret tt.

Definition get_transaction_id (g : t) : N := transaction_id_ g.

(** [commit()]: the result of [commit_transaction] is dropped. *)
Definition commit (g : t) : M TransactionManager.t t :=
  if manager_ g && negb (committed_ g) then
    let* _ := TransactionManager.commit_transaction (transaction_id_ g) in
    ret (mk (manager_ g) (transaction_id_ g) true)
  else ret g.

Definition abort (g : t) : M TransactionManager.t t :=
  if manager_ g && negb (committed_ g) then
    let* _ := TransactionManager.rollback_transaction (transaction_id_ g) in
    ret (mk (manager_ g) (transaction_id_ g) true)
  else ret g.

End TransactionGuard.

(** ** The file system aggregate ([include/core/file_system.h]) *)

Module SuperBlock.

(** The data members of [SuperBlock] ([include/core/superblock.h]). *)
Record t : Type := mk {
  magic_number : N; block_size : N; total_blocks : N; free_blocks : N;
  inode_count : N; free_inodes : N; root_inode : N;
  last_mount_time : N; last_write_time : N; version : N; checksum : N
}.

End SuperBlock.

Module FileSystem.

Record t : Type := mk {
  superblock_ : SuperBlock.t;
  inode_table_ : InodeTable.t;
  block_manager_ : BlockManager.t;
  transaction_manager_ : TransactionManager.t;
  is_mounted_ : bool
}.

Definition set_transaction_manager (tm : TransactionManager.t) (fs : t) : t :=
  mk (superblock_ fs) (inode_table_ fs) (block_manager_ fs) tm (is_mounted_ fs).

(** [transaction_manager_->recover()].  [TransactionManager] holds no
    reference to the other members. *)
Definition recover : M t unit :=
  zoom transaction_manager_ set_transaction_manager TransactionManager.recover.

End FileSystem.

(** ** Recovery as the specification words it

    Used only to compare with [TransactionManager.recover]. *)

Module SpecRecovery.

(** Modelled from the spec: the operation types of a WAL record.
    [core/transaction_manager.h], which would declare them, is not among the
    sources; they are numbered in the order the specification lists them. *)
Inductive OpType : Type :=
| BEGIN | CREATE | WRITE_BLOCK | ALLOC_INODE | FREE_INODE | ALLOC_BLOCK
| FREE_BLOCK | DIR_ADD | DIR_REMOVE | COMMIT | ABORT.

Definition op_code (op : OpType) : N :=
  match op with
  | BEGIN => 0 | CREATE => 1 | WRITE_BLOCK => 2 | ALLOC_INODE => 3
  | FREE_INODE => 4 | ALLOC_BLOCK => 5 | FREE_BLOCK => 6 | DIR_ADD => 7
  | DIR_REMOVE => 8 | COMMIT => 9 | ABORT => 10
  end.

Definition has_op (op : OpType) (e : LogEntry.t) : bool :=
  LogEntry.operation_type e =? op_code op.

(** Modelled from the spec: the effect of one staged record.  ALLOC_BLOCK
    sets the bit of its block (marks it used), FREE_BLOCK clears it, and
    likewise for inodes; the other operations act on block contents and
    directories, which the allocators do not hold. *)
Definition apply_record (e : LogEntry.t) (fs : FileSystem.t) : FileSystem.t :=
  let bm := FileSystem.block_manager_ fs in
  let it := FileSystem.inode_table_ fs in
  let set_block v :=
    FileSystem.mk (FileSystem.superblock_ fs) it
      (BlockManager.set_bitmap
         (<[N.to_nat (LogEntry.block_number e) := v]> (BlockManager.block_bitmap_ bm)) bm)
      (FileSystem.transaction_manager_ fs) (FileSystem.is_mounted_ fs) in
  let set_inode v :=
    FileSystem.mk (FileSystem.superblock_ fs)
      (InodeTable.set_free
         (<[N.to_nat (LogEntry.inode_number e) := v]> (InodeTable.free_inodes_ it)) it)
      bm (FileSystem.transaction_manager_ fs) (FileSystem.is_mounted_ fs) in
  if has_op ALLOC_BLOCK e then set_block false
  else if has_op FREE_BLOCK e then set_block true
  else if has_op ALLOC_INODE e then set_inode false
  else if has_op FREE_INODE e then set_inode true
  else fs.

(** Modelled from the spec: scan the records from the start, accumulating
    them per transaction id; at a COMMIT apply the accumulated records in
    order, at an ABORT drop them; stop at the first record whose checksum
    fails; what is still accumulated at the end is not applied. *)
Fixpoint replay (records : list LogEntry.t) (staged : gmap N (list LogEntry.t))
    (fs : FileSystem.t) : FileSystem.t :=
  match records with
  | [] => fs
  | e :: records' =>
      let tx := LogEntry.transaction_id e in
      if negb (LogEntry.is_valid e) then fs
      else if has_op COMMIT e then
        replay records' (delete tx staged)
               (fold_left (fun fs r => apply_record r fs) (default [] (staged !! tx)) fs)
      else if has_op ABORT e then replay records' (delete tx staged) fs
      else replay records' (<[tx := default [] (staged !! tx) ++ [e]]> staged) fs
  end.

Definition recover (records : list LogEntry.t) (fs : FileSystem.t) : FileSystem.t :=
  replay records ∅ fs.

End SpecRecovery.

(** ** Predicates and sample states used by the properties below *)

(** The representation invariant of a block manager between calls: the
    mutex is not owned, the bitmap has one entry per block, the count fits
    [uint32_t] and the hint is at most [total_blocks_]. *)
Definition block_manager_wf (s : BlockManager.t) : Prop :=
  BlockManager.bitmap_mutex_ s = false /\
  N.of_nat (length (BlockManager.block_bitmap_ s)) = BlockManager.total_blocks_ s /\
  BlockManager.total_blocks_ s <= UINT32_MAX /\
  BlockManager.next_free_block_ s <= BlockManager.total_blocks_ s.

(** Every block from [lo] up to, not including, [hi] is in use. *)
Definition used_between (bm : list bool) (lo hi : N) : Prop :=
  forall j, lo <= j < hi -> bm !! N.to_nat j = Some false.

(** [k] is the first free block met when scanning from [start] to the end
    of the bitmap and then from 0 up to [start]. *)
Definition first_free_from (bm : list bool) (start k : N) : Prop :=
  bm !! N.to_nat k = Some true /\
  ((start <= k /\ used_between bm start k) \/
   (k < start /\ used_between bm start (N.of_nat (length bm)) /\ used_between bm 0 k)).

(** How the bitmap [bm] of a running [allocate_blocks] relates to the
    bitmap [bm0] at entry, [acc] being the blocks marked so far. *)
Definition marked (bm0 : list bool) (acc : list N) (bm : list bool) : Prop :=
  length bm = length bm0 /\
  (forall b, b ∈ acc -> bm0 !! N.to_nat b = Some true /\ bm !! N.to_nat b = Some false) /\
  (forall j : nat, j ∉ (N.to_nat <$> acc) -> bm !! j = bm0 !! j).

(** Every block of [acc] is marked used in [s]. *)
Definition all_marked_used (acc : list N) (s : BlockManager.t) : Prop :=
  forall b : N, b ∈ acc -> BlockManager.block_bitmap_ s !! N.to_nat b = Some false.

(** The representation invariant of a data block between calls: the mutex
    is not owned and [data_] holds [block_size_] bytes. *)
Definition data_block_wf (s : DataBlock.t) : Prop :=
  DataBlock.data_mutex_ s = false /\
  N.of_nat (length (DataBlock.data_ s)) = DataBlock.block_size_ s.

(** The representation invariant of an inode table between calls: the
    mutex is not owned, the record array and the free bitmap have the same
    size, which fits [uint32_t], and the hint is inside the table (or at its
    initial value 1). *)
Definition inode_table_wf (s : InodeTable.t) : Prop :=
  InodeTable.table_mutex_ s = false /\
  length (InodeTable.inodes_ s) = length (InodeTable.free_inodes_ s) /\
  InodeTable.free_size s <= UINT32_MAX /\
  InodeTable.next_free_inode_ s <= N.max 1 (InodeTable.free_size s).

(** Every transaction of the active map has an id below the next id the
    manager hands out. *)
Definition ids_below_next (s : TransactionManager.t) : Prop :=
  forall (tx_id : N) (tx : Transaction.t),
    TransactionManager.active_transactions_ s !! tx_id = Some tx ->
    tx_id < TransactionManager.next_transaction_id_ s.

(** A record whose fields fit the widths [serialize] writes them in. *)
Definition log_entry_wf (e : LogEntry.t) : Prop :=
  LogEntry.transaction_id e < 2 ^ 64 /\
  LogEntry.operation_type e < 2 ^ 32 /\
  LogEntry.inode_number e < 2 ^ 32 /\
  LogEntry.block_number e < 2 ^ 32 /\
  LogEntry.timestamp e < 2 ^ 64 /\
  LogEntry.checksum e < 2 ^ 32 /\
  N.of_nat (length (LogEntry.old_data e)) < 2 ^ 32 /\
  N.of_nat (length (LogEntry.new_data e)) < 2 ^ 32.

(** A device of ten blocks with every block taken: the state after nine
    calls of [allocate_block] on a fresh manager. *)
Definition exhausted : BlockManager.t :=
  BlockManager.mk (replicate 10 false) false 10 4096 0.

(** The same device after blocks 3 and 7 were given back: two free blocks,
    not adjacent. *)
Definition fragmented : BlockManager.t :=
  BlockManager.mk [false; false; false; true; false; false; false; true; false; false]
                  false 10 4096 0.

(** The states an inode table goes through from its construction, by calls
    of [allocate_inode] and [deallocate_inode] that return. *)
Inductive inode_table_step : InodeTable.t -> InodeTable.t -> Prop :=
| step_allocate_inode (s s' : InodeTable.t) (i : N) :
    InodeTable.allocate_inode s = Ret i s' -> inode_table_step s s'
| step_deallocate_inode (s s' : InodeTable.t) (inode_num : N) :
    InodeTable.deallocate_inode inode_num s = Ret tt s' -> inode_table_step s s'.

Definition inode_table_reachable (max_inodes : N) (s : InodeTable.t) : Prop :=
  rtc inode_table_step (InodeTable.new max_inodes) s.

(** A table of sixteen inodes with every inode taken and the hint wrapped
    to 0: the state after fourteen calls of [allocate_inode]. *)
Definition full_table : InodeTable.t :=
  InodeTable.mk (replicate 16 Inode.default) (replicate 16 false) false 0.

(** That table after [deallocate_inode 0]. *)
Definition inode_zero_freed : InodeTable.t :=
  InodeTable.mk (replicate 16 Inode.default) (true :: replicate 15 false) false 0.

(** A fresh transaction manager on an empty log, after one transaction was
    begun at time 10 and one record staged in it. *)
Definition one_staged_record : LogEntry.t := LogEntry.mk 1 2 7 3 1000 0 [9] [1; 2; 3].

Definition staging_state : TransactionManager.t :=
  TransactionManager.mk [] true (ofstream.mk true false [])
     {[ 1 := Transaction.mk 1 [LogEntry.update_checksum one_staged_record] 10
                            true false false ]}
     2 false false false.

(** A manager whose map holds transaction 1 with the aborted flag set and
    transaction 2 with the committed flag set (the flags are members that
    callers reach through the pointer [get_transaction] hands out). *)
Definition terminal_state : TransactionManager.t :=
  TransactionManager.mk [] true (ofstream.mk true false [])
     {[ 1 := Transaction.mk 1 [] 10 false false true;
        2 := Transaction.mk 2 [] 11 false true false ]}
     3 false false false.

(** Transaction 1 of a fresh manager with two records staged, the device
    under the log having run out of room since the manager was built. *)
Definition second_staged_record : LogEntry.t := LogEntry.mk 1 3 7 4 1001 0 [] [4; 5].

Definition full_device_state : TransactionManager.t :=
  TransactionManager.mk [] true (ofstream.mk true false [])
     {[ 1 := Transaction.mk 1 [LogEntry.update_checksum one_staged_record;
                               LogEntry.update_checksum second_staged_record] 10
                            true false false ]}
     2 false false true.

(** That manager after [commit_transaction 1] has failed: the stream
    carries badbit and the bytes of the first record, which the device
    refused, and the transaction is in the map with its aborted flag set. *)
Definition aborted_state : TransactionManager.t :=
  TransactionManager.mk [] true
     (ofstream.mk true true (LogEntry.encode (LogEntry.update_checksum one_staged_record)))
     {[ 1 := Transaction.mk 1 [LogEntry.update_checksum one_staged_record;
                               LogEntry.update_checksum second_staged_record] 10
                            false false true ]}
     2 false false true.

(** Transaction 1 allocates block 2 and commits. *)
Definition alloc_block_2 : LogEntry.t :=
  LogEntry.update_checksum
    (LogEntry.mk 1 (SpecRecovery.op_code SpecRecovery.ALLOC_BLOCK) 0 2 1000 0 [] []).
Definition commit_1 : LogEntry.t :=
  LogEntry.update_checksum
    (LogEntry.mk 1 (SpecRecovery.op_code SpecRecovery.COMMIT) 0 0 1001 0 [] []).

(** A file system of ten blocks, block 2 free, whose log holds those two
    records. *)
Definition crashed_fs : FileSystem.t :=
  FileSystem.mk
    (SuperBlock.mk 0xDF5F0001 4096 10 9 16 14 1 0 0 1 0)
    (InodeTable.new 16)
    (BlockManager.new 10 4096)
    (TransactionManager.new (LogEntry.encode alloc_block_2 ++ LogEntry.encode commit_1))
    false.

(** A record whose stored checksum is wrong. *)
Definition corrupt_record : LogEntry.t := LogEntry.mk 1 2 7 3 1000 12345 [] [1; 2; 3].

(** A manager whose log stream has failed, with one record staged in
    transaction 1. *)
Definition failed_stream_state : TransactionManager.t :=
  TransactionManager.mk [] true (ofstream.mk true true [])
     {[ 1 := Transaction.mk 1 [LogEntry.update_checksum one_staged_record] 10
                            true false false ]}
     2 false false false.

(** * Properties *)

(** ** Stepping through the monad *)

Lemma bind_Ret {S A B} (m : M S A) (k : A -> M S B) s a s' :
  m s = Ret a s' -> bind m k s = k a s'.
Proof. intros H. unfold bind. by rewrite H. Qed.

Lemma bind_Throw {S A B} (m : M S A) (k : A -> M S B) s e s' :
  m s = Throw e s' -> bind m k s = Throw e s'.
Proof. intros H. unfold bind. by rewrite H. Qed.

Lemma bind_Undefined {S A B} (m : M S A) (k : A -> M S B) s u s' :
  m s = Undefined u s' -> bind m k s = Undefined u s'.
Proof. intros H. unfold bind. by rewrite H. Qed.

(** ** Block manager *)

Section BlockManagerFacts.
Import BlockManager.

(** An id at or past [total_blocks_] is reported not free, and so is an
    allocated one. *)
Lemma is_block_free_out_of_range (s : t) (block_id : N) :
  total_blocks_ s <= block_id -> is_block_free block_id s = Ret false s.
Proof.
  intros H. unfold is_block_free, bind, gets.
  destruct (N.leb_spec (total_blocks_ s) block_id); [done | lia].
Qed.

Lemma is_block_free_allocated (s : t) (block_id : N) :
  block_id < total_blocks_ s ->
  block_bitmap_ s !! N.to_nat block_id = Some false ->
  is_block_free block_id s = Ret false s.
Proof.
  intros H Hb. unfold is_block_free, bind, gets, bitmap_get.
  destruct (N.leb_spec (total_blocks_ s) block_id); [lia |]. by rewrite Hb.
Qed.

(** [deallocate_block] on an id at or past [total_blocks_] is refused
    and nothing changes. *)
Lemma deallocate_block_out_of_range (s : t) (block_id : N) :
  total_blocks_ s <= block_id ->
  deallocate_block block_id s = Throw (BlockNotFoundException block_id) s.
Proof.
  intros H. unfold deallocate_block, bind, gets.
  destruct (N.leb_spec (total_blocks_ s) block_id); [done | lia].
Qed.

End BlockManagerFacts.

(** ** Block manager: the allocation scan *)

Section BlockAllocation.
Import BlockManager.

Lemma scan_free_spec (n : nat) : forall (i : N) (s : t),
  (N.to_nat i + n <= length (block_bitmap_ s))%nat ->
  exists r, scan_free i n s = Ret r s /\
    match r with
    | Some k => i <= k < i + N.of_nat n /\
                block_bitmap_ s !! N.to_nat k = Some true /\
                used_between (block_bitmap_ s) i k
    | None => used_between (block_bitmap_ s) i (i + N.of_nat n)
    end.
Proof.
  induction n as [|n IH]; intros i s Hlen; simpl.
  - exists None. split; [done |]. intros j Hj. lia.
  - unfold bind at 1. unfold bitmap_get at 1.
    destruct (block_bitmap_ s !! N.to_nat i) as [[]|] eqn:Hi.
    + exists (Some i). split; [done |]. repeat split; try lia; [done |].
      intros j Hj. lia.
    + destruct (IH (i + 1) s) as [r [Hr Hspec]]; [lia |].
      exists r. split; [done |]. destruct r as [k|].
      * destruct Hspec as (Hk & Hfree & Hused). repeat split; try lia; [done |].
        intros j Hj. destruct (decide (j = i)) as [->|]; [done |]. apply Hused. lia.
      * intros j Hj. destruct (decide (j = i)) as [->|]; [done |]. apply Hspec. lia.
    + apply lookup_ge_None in Hi. lia.
Qed.

Lemma find_next_free_block_spec (s : t) (start : N) :
  N.of_nat (length (block_bitmap_ s)) = total_blocks_ s ->
  total_blocks_ s <= UINT32_MAX ->
  start <= total_blocks_ s ->
  (exists k, find_next_free_block start s = Ret k s /\ k < total_blocks_ s /\
             first_free_from (block_bitmap_ s) start k) \/
  (find_next_free_block start s = Ret UINT32_MAX s /\
   used_between (block_bitmap_ s) 0 (total_blocks_ s)).
Proof.
  intros Hlen Htot Hstart.
  destruct (scan_free_spec (N.to_nat (total_blocks_ s - start)) start s)
    as [r [Hr Hspec]]; [lia |].
  destruct r as [k|].
  - left. exists k. destruct Hspec as (Hk & Hfree & Hused).
    split; [by unfold find_next_free_block, bind, gets; rewrite Hr |].
    split; [lia |]. split; [done |]. left. split; [lia | done].
  - destruct (scan_free_spec (N.to_nat start) 0 s) as [r [Hr2 Hspec2]]; [lia |].
    destruct r as [k|].
    + left. exists k. destruct Hspec2 as (Hk & Hfree & Hused).
      split; [by unfold find_next_free_block, bind, gets; rewrite Hr, Hr2 |].
      split; [lia |]. split; [done |].
      right. split; [lia |]. split; [| done].
      intros j Hj. apply Hspec. lia.
    + right. split; [by unfold find_next_free_block, bind, gets; rewrite Hr, Hr2 |].
      intros j Hj.
      destruct (decide (j < start)); [apply Hspec2 | apply Hspec]; lia.
Qed.

(** What [allocate_block] does on a well-formed manager.  When a block is
    free it returns the first free block in scan order, marks it used and
    moves the hint just past it.  When none is free, building the exception
    calls [get_free_block_count], which locks [bitmap_mutex_] a second
    time: the call stops there, bitmap untouched, and throws nothing. *)
Lemma allocate_block_spec (s : t) :
  block_manager_wf s ->
  (exists k,
     first_free_from (block_bitmap_ s) (next_free_block_ s) k /\
     k < total_blocks_ s /\
     allocate_block s =
       Ret k (mk (<[N.to_nat k := false]> (block_bitmap_ s)) false
                 (total_blocks_ s) (block_size_ s) ((k + 1) mod total_blocks_ s))) \/
  (used_between (block_bitmap_ s) 0 (total_blocks_ s) /\
   allocate_block s = Undefined Relock (set_mutex true s)).
Proof.
  intros (Hm & Hlen & Htot & Hhint).
  destruct (find_next_free_block_spec (set_mutex true s) (next_free_block_ s))
    as [(k & Hfind & Hk & Hfirst) | (Hfind & Hused)]; try done;
    cbn [total_blocks_ block_bitmap_ set_mutex] in *.
  - left. exists k. split; [done |]. split; [done |].
    unfold allocate_block, with_lock, lock_guard. rewrite Hm.
    unfold bind at 1. unfold gets at 1. cbn [next_free_block_ set_mutex].
    rewrite (bind_Ret _ _ _ _ _ Hfind).
    assert ((k =? UINT32_MAX) = false) as -> by (apply N.eqb_neq; unfold UINT32_MAX in *; lia).
    destruct (Hfirst) as [Hfree _].
    unfold bind, bitmap_set, gets, umod, modify, ret.
    cbn [block_bitmap_ total_blocks_ set_mutex set_bitmap]. rewrite Hfree.
    cbn [block_bitmap_ total_blocks_ set_mutex set_bitmap].
    assert ((total_blocks_ s =? 0) = false) as -> by (apply N.eqb_neq; lia).
    unfold set_next, set_mutex, set_bitmap, u32. cbn.
    unfold UINT32_MAX in Htot. change (2 ^ 32) with 4294967296.
    rewrite (N.mod_small (k + 1) 4294967296) by lia. done.
  - right. split; [done |].
    unfold allocate_block, with_lock, lock_guard. rewrite Hm.
    unfold bind at 1. unfold gets at 1. cbn [next_free_block_ set_mutex].
    rewrite (bind_Ret _ _ _ _ _ Hfind). rewrite N.eqb_refl.
    unfold bind, get_free_block_count, with_lock, lock_guard. done.
Qed.

(** The constructor establishes the invariant and a successful
    [allocate_block] keeps it. *)
Lemma wf_new (total_blocks block_size : N) :
  total_blocks <= UINT32_MAX -> block_manager_wf (new total_blocks block_size).
Proof.
  intros H. unfold block_manager_wf, new. destruct (N.ltb_spec 0 total_blocks); cbn.
  - rewrite length_insert, length_replicate. repeat split; lia.
  - rewrite length_replicate. repeat split; lia.
Qed.

Lemma allocate_block_wf (s s' : t) (k : N) :
  block_manager_wf s -> allocate_block s = Ret k s' -> block_manager_wf s'.
Proof.
  intros Hwf Hret. destruct (allocate_block_spec s Hwf) as [(k' & _ & Hk & Heq) | [_ Heq]];
    rewrite Heq in Hret; [| done].
  injection Hret as <- <-. destruct Hwf as (Hm & Hlen & Htot & Hhint).
  unfold block_manager_wf. cbn. rewrite length_insert. repeat split; try done.
  pose proof (N.mod_upper_bound (k' + 1) (total_blocks_ s)). lia.
Qed.

End BlockAllocation.

(** ** Block manager: the scattered path of [allocate_blocks] *)

Section ScatteredAllocation.
Import BlockManager.

(** The contiguous search changes nothing unless it finds a run. *)
Lemma find_run_None (count : N) (n : nat) :
  forall start_block consecutive_count current_block s s',
  find_run count n start_block consecutive_count current_block s = Ret None s' ->
  s' = s.
Proof.
  induction n as [|n IH]; intros start cc cur s s'; simpl.
  - unfold ret. congruence.
  - unfold bind at 1. unfold gets at 1. unfold bind at 1. unfold bitmap_get at 1.
    destruct (block_bitmap_ s !! N.to_nat cur) as [[]|]; [| | done].
    + destruct (u32 (cc + 1) =? count).
      * unfold bind at 1.
        destruct (take_run start 0 (N.to_nat count) [] s) as [blocks s1| |]; [| done | done].
        unfold bind at 1.
        destruct (umod (u32 (start + count)) (total_blocks_ s) s1); [| done | done].
        unfold bind, modify, ret. congruence.
      * unfold bind at 1. unfold umod.
        destruct (total_blocks_ s =? 0); [done |]. unfold ret at 1. apply IH.
    + unfold bind at 1. unfold umod.
      destruct (total_blocks_ s =? 0); [done |]. unfold ret at 1.
      unfold bind at 1. unfold ret at 1. apply IH.
Qed.

Lemma marked_nil (bm0 : list bool) : marked bm0 [] bm0.
Proof. split; [done |]. split; [| done]. intros b Hb. by apply not_elem_of_nil in Hb. Qed.

Lemma marked_snoc (bm0 bm : list bool) (acc : list N) (k : N) :
  marked bm0 acc bm -> bm !! N.to_nat k = Some true ->
  marked bm0 (acc ++ [k]) (<[N.to_nat k := false]> bm).
Proof.
  intros (Hlen & Hacc & Hother) Hk.
  assert (Hfresh : N.to_nat k ∉ (N.to_nat <$> acc)).
  { intros Hin. apply list_elem_of_fmap in Hin as (b & Hb & Hin).
    apply Hacc in Hin as [_ Hfalse]. rewrite <- Hb in Hfalse. congruence. }
  split; [by rewrite length_insert |]. split.
  - intros b Hb. apply elem_of_app in Hb as [Hb | Hb].
    + destruct (Hacc b Hb) as [H0 Hf]. split; [done |].
      rewrite list_lookup_insert_ne; [done |].
      intros Heq. apply Hfresh. rewrite Heq. apply list_elem_of_fmap. eauto.
    + apply list_elem_of_singleton in Hb as ->. split.
      * rewrite <- Hother; done.
      * apply list_lookup_insert_eq. by apply lookup_lt_Some in Hk.
  - intros j Hj. rewrite fmap_app in Hj. apply not_elem_of_app in Hj as [Hj1 Hj2].
    rewrite list_lookup_insert_ne; [by apply Hother |].
    intros <-. apply Hj2. simpl. apply list_elem_of_singleton. done.
Qed.

(** The undo loop puts the entry bitmap back. *)
Lemma restore_marked (acc : list N) : forall (bm0 : list bool) (s : t),
  (forall b, b ∈ acc -> bm0 !! N.to_nat b = Some true) ->
  length (block_bitmap_ s) = length bm0 ->
  (forall j : nat, j ∉ (N.to_nat <$> acc) -> block_bitmap_ s !! j = bm0 !! j) ->
  for_each acc (fun allocated_block => bitmap_set allocated_block true) s =
    Ret tt (set_bitmap bm0 s).
Proof.
  induction acc as [|b acc IH]; intros bm0 s Hfree Hlen Hother.
  - assert (block_bitmap_ s = bm0) as <-.
    { apply list_eq. intros j. apply Hother. simpl. apply not_elem_of_nil. }
    by destruct s.
  - simpl. unfold bind at 1. unfold bitmap_set at 1.
    assert (Hb : (N.to_nat b < length (block_bitmap_ s))%nat).
    { rewrite Hlen. eapply lookup_lt_Some. apply Hfree. left. }
    destruct (lookup_lt_is_Some_2 _ _ Hb) as [v ->].
    rewrite (IH bm0); [done | | |].
    + intros b' Hb'. apply Hfree. by right.
    + cbn. by rewrite length_insert.
    + cbn. intros j Hj. destruct (decide (j = N.to_nat b)) as [->|Hne].
      * rewrite list_lookup_insert_eq by done. symmetry. apply Hfree. left.
      * rewrite list_lookup_insert_ne by done. apply Hother.
        simpl. intros Hin. apply elem_of_cons in Hin as [? | ?]; done.
Qed.

(** The fallback loop, run while [bitmap_mutex_] is held, either delivers
    its blocks or runs out of free blocks.  In the second case it has put
    the bitmap back as it was at entry when it goes on to build the
    exception; [get_free_block_count] then locks the mutex again and the
    call stops without throwing. *)
Lemma allocate_individually_spec (count : N) (n : nat) :
  forall (bm0 : list bool) (acc : list N) (s : t),
  bitmap_mutex_ s = true ->
  N.of_nat (length (block_bitmap_ s)) = total_blocks_ s ->
  total_blocks_ s <= UINT32_MAX ->
  next_free_block_ s <= total_blocks_ s ->
  marked bm0 acc (block_bitmap_ s) ->
  (exists blocks s', allocate_individually count n acc s = Ret blocks s') \/
  (exists hint, allocate_individually count n acc s =
     Undefined Relock (mk bm0 true (total_blocks_ s) (block_size_ s) hint)).
Proof.
  induction n as [|n IH]; intros bm0 acc s Hm Hlen Htot Hhint Hmarked.
  - left. by eexists _, _.
  - destruct (find_next_free_block_spec s (next_free_block_ s))
      as [(k & Hfind & Hk & Hfirst) | (Hfind & Hused)]; try done.
    + destruct Hfirst as [Hfree _].
      set (s2 := set_next (u32 (k + 1) `mod` total_blocks_ s)
                   (set_bitmap (<[N.to_nat k:=false]> (block_bitmap_ s)) s)).
      assert (Hstep : allocate_individually count (S n) acc s =
                      allocate_individually count n (acc ++ [k]) s2).
      { simpl. unfold bind at 1. unfold gets at 1.
        rewrite (bind_Ret _ _ _ _ _ Hfind).
        assert ((k =? UINT32_MAX) = false) as ->
          by (apply N.eqb_neq; unfold UINT32_MAX in *; lia).
        unfold bind at 1. unfold bitmap_set at 1. rewrite Hfree.
        unfold bind at 1. unfold gets at 1. unfold bind at 1. unfold umod.
        cbn [total_blocks_ set_bitmap].
        assert ((total_blocks_ s =? 0) = false) as -> by (apply N.eqb_neq; lia).
        done. }
      rewrite Hstep.
      destruct (IH bm0 (acc ++ [k]) s2) as [Hok | (hint & Hstop)].
      * done.
      * cbn. by rewrite length_insert.
      * done.
      * cbn. pose proof (N.mod_upper_bound (u32 (k + 1)) (total_blocks_ s)). lia.
      * by apply marked_snoc.
      * by left.
      * right. exists hint. by rewrite Hstop.
    + right. exists (next_free_block_ s).
      destruct Hmarked as (Hlen0 & Hacc & Hother).
      simpl. unfold bind at 1. unfold gets at 1.
      rewrite (bind_Ret _ _ _ _ _ Hfind). rewrite N.eqb_refl.
      unfold bind at 1. rewrite (restore_marked acc bm0 s); [| | done | done].
      * unfold bind, get_free_block_count, with_lock, lock_guard. cbn. rewrite Hm.
        unfold set_bitmap. by rewrite Hm.
      * intros b Hb. by apply Hacc.
Qed.

(** On a well-formed manager whose contiguous search finds
    no run, [allocate_blocks] never throws: it returns the blocks, or it
    stops at the second lock of [bitmap_mutex_] with the bitmap equal to the
    bitmap at entry. *)
Lemma allocate_blocks_scattered_spec (count : N) (s s1 : t) :
  block_manager_wf s -> count <> 0 ->
  find_run count (N.to_nat (total_blocks_ s)) (next_free_block_ s) 0
           (next_free_block_ s) (set_mutex true s) = Ret None s1 ->
  (exists blocks s', allocate_blocks count s = Ret blocks s') \/
  (exists s', allocate_blocks count s = Undefined Relock s' /\
              block_bitmap_ s' = block_bitmap_ s).
Proof.
  intros (Hm & Hlen & Htot & Hhint) Hcount Hrun.
  pose proof (find_run_None _ _ _ _ _ _ _ Hrun) as ->.
  assert (Heq : allocate_blocks count s =
    match allocate_individually count (N.to_nat count) [] (set_mutex true s) with
    | Ret a s' => Ret a (set_mutex false s')
    | Throw e s' => Throw e (set_mutex false s')
    | Undefined u s' => Undefined u s'
    end).
  { unfold allocate_blocks.
    assert ((count =? 0) = false) as -> by (by apply N.eqb_neq).
    unfold with_lock, lock_guard. rewrite Hm.
    unfold bind at 1. unfold gets at 1. unfold bind at 1. unfold gets at 1.
    cbn [next_free_block_ total_blocks_ set_mutex].
    by rewrite (bind_Ret _ _ _ _ _ Hrun). }
  rewrite Heq.
  destruct (allocate_individually_spec count (N.to_nat count)
              (block_bitmap_ s) [] (set_mutex true s))
    as [(blocks & s' & ->) | (hint & ->)]; try done.
  - apply marked_nil.
  - left. by eexists _, _.
  - right. eexists. split; [reflexivity | done].
Qed.

End ScatteredAllocation.

(** ** Recovery *)

Section Recovery.

(** A read never extracts more than it was asked for. *)
Lemma read_gcount (n : nat) (old : list byte) (f : ifstream.t) :
  exists bs f', ifstream.read n old f = Ret bs f' /\
                ifstream.gcount f' <= N.of_nat n /\
                ifstream.is_open f' = ifstream.is_open f.
Proof.
  unfold ifstream.read. destruct (ifstream.good f).
  - eexists _, _. split; [done |]. cbn. split; [| done].
    rewrite length_take. lia.
  - eexists _, _. split; [done |]. cbn. split; [lia | done].
Qed.

(** [deserialize] compares [gcount()], the size of the last read (the four
    bytes of the checksum), with the size of the whole header: whatever the
    stream holds, the header check throws. *)
Lemma deserialize_throws (f : ifstream.t) :
  exists e f', LogEntry.deserialize f = Throw e f'.
Proof.
  unfold LogEntry.deserialize. unfold bind at 1. unfold gets at 1.
  destruct (ifstream.is_open f) eqn:Hopen; cbn [negb]; [| by eexists _, _].
  destruct (read_gcount 8 (le_bytes 8 0) f) as (b1 & f1 & H1 & _ & _).
  rewrite (bind_Ret _ _ _ _ _ H1).
  destruct (read_gcount 4 (le_bytes 4 0) f1) as (b2 & f2 & H2 & _ & _).
  rewrite (bind_Ret _ _ _ _ _ H2).
  destruct (read_gcount 4 (le_bytes 4 0) f2) as (b3 & f3 & H3 & _ & _).
  rewrite (bind_Ret _ _ _ _ _ H3).
  destruct (read_gcount 4 (le_bytes 4 0) f3) as (b4 & f4 & H4 & _ & _).
  rewrite (bind_Ret _ _ _ _ _ H4).
  destruct (read_gcount 8 (le_bytes 8 0) f4) as (b5 & f5 & H5 & _ & _).
  rewrite (bind_Ret _ _ _ _ _ H5).
  destruct (read_gcount 4 (le_bytes 4 0) f5) as (b6 & f6 & H6 & Hg & _).
  rewrite (bind_Ret _ _ _ _ _ H6).
  unfold bind at 1. unfold gets at 1. unfold bind at 1. unfold gets at 1.
  assert ((ifstream.gcount f6 =? 8 + 4 + 4 + 4 + 8 + 4) = false) as ->
    by (apply N.eqb_neq; lia).
  rewrite orb_true_r. by eexists _, _.
Qed.

Import TransactionManager.

(** One iteration of the replay loop is all there ever is: the loop either
    does not start or leaves through the handler of the enclosing [try],
    with the counter where it was. *)
Lemma replay_loop_once (fuel : nat) (fr : replay_frame) :
  exists fr', try_catch (replay_loop (S fuel)) (fun _ => ret tt) fr = Ret tt fr' /\
              replayed_entries fr' = replayed_entries fr.
Proof.
  unfold try_catch. simpl. unfold bind at 1. unfold gets at 1.
  destruct (ifstream.good (log_file fr) && negb (ifstream.eof (log_file fr))).
  - unfold bind at 1. unfold zoom.
    destruct (deserialize_throws (log_file fr)) as (e & f' & ->).
    by eexists.
  - by eexists.
Qed.

(** The iteration bound plays no part. *)
Lemma replay_loop_fuel (fuel fuel' : nat) (fr : replay_frame) :
  replay_loop (S fuel) fr = replay_loop (S fuel') fr.
Proof.
  destruct (deserialize_throws (log_file fr)) as (e & f' & H).
  cbn [replay_loop]. unfold bind, gets, zoom.
  destruct (ifstream.good (log_file fr) && negb (ifstream.eof (log_file fr)));
    [by rewrite H | done].
Qed.

(** Replay counts no record and leaves the manager, the WAL file included,
    as it found it. *)
Lemma replay_log_entries_nothing (s : t) : replay_log_entries s = Ret 0 s.
Proof.
  unfold replay_log_entries. destruct (wal_readable s); cbn [negb]; [| done].
  destruct (replay_loop_once (length (wal_file s))
              (mk_frame (ifstream.mk true (wal_file s) false false 0) 0))
    as (fr' & -> & ->). done.
Qed.

Lemma recover_nothing (s : t) : recover s = Ret tt s.
Proof.
  unfold recover, try_catch, bind. by rewrite replay_log_entries_nothing.
Qed.

Lemma FileSystem_recover_nothing (fs : FileSystem.t) :
  FileSystem.recover fs = Ret tt fs.
Proof.
  unfold FileSystem.recover, zoom. rewrite recover_nothing. by destruct fs.
Qed.

End Recovery.

(** ** Commit and rollback *)

Section CommitRollback.
Import TransactionManager.

(** One record: appended to the stream and flushed at once. *)
Lemma write_log_entry_flushed (entry : LogEntry.t) (s : t) :
  log_mutex_ s = false ->
  device_full s = false ->
  log_file_ s = ofstream.mk true false [] ->
  write_log_entry entry s = Ret tt (set_wal_file (wal_file s ++ LogEntry.encode entry) s).
Proof.
  intros Hm Hd Hf. destruct s as [w r f m n tm lm d]. cbn in Hm, Hd, Hf. subst.
  unfold write_log_entry, lock_guard, bind, gets, zoom, LogEntry.serialize, bind, gets,
    ofstream.write, flush. cbn. done.
Qed.

(** The staged records go to the WAL in staging order, nothing else does. *)
Lemma write_all_log_entries (entries : list LogEntry.t) : forall s : t,
  log_mutex_ s = false ->
  device_full s = false ->
  log_file_ s = ofstream.mk true false [] ->
  for_each entries write_log_entry s =
    Ret tt (set_wal_file (wal_file s ++ concat (LogEntry.encode <$> entries)) s).
Proof.
  induction entries as [|e entries IH]; intros s Hm Hd Hf.
  - cbn. rewrite app_nil_r. by destruct s.
  - cbn [for_each]. rewrite (bind_Ret _ _ _ _ _ (write_log_entry_flushed e s Hm Hd Hf)).
    rewrite IH by done. cbn. by rewrite <- app_assoc.
Qed.

(** [rollback_transaction] by the entry it finds.  On a transaction that is
    neither committed nor aborted it erases the entry and then reads the
    destroyed object; the state is the one at that read, the mutex still
    held. *)
Lemma rollback_transaction_lookup (tx_id : N) (s : t) :
  transaction_mutex_ s = false ->
  rollback_transaction tx_id s =
    match active_transactions_ s !! tx_id with
    | None => Throw (TransactionNotFoundException tx_id) s
    | Some transaction =>
        if Transaction.is_committed transaction then Ret false s
        else if Transaction.is_aborted transaction then Ret true s
        else Undefined UseAfterFree
               (set_transaction_mutex true
                  (set_active (delete tx_id (active_transactions_ s)) s))
    end.
Proof.
  intros Hm. unfold rollback_transaction, lock_guard, bind, gets. rewrite Hm. cbn.
  destruct (active_transactions_ s !! tx_id) as [tx|] eqn:Hl.
  - destruct (Transaction.is_committed tx) eqn:Hc;
      [| destruct (Transaction.is_aborted tx) eqn:Ha].
    + by destruct s; cbn in *; subst.
    + by destruct s; cbn in *; subst.
    + unfold update_transaction, erase, modify, ret. cbn.
      by rewrite delete_alter_eq.
  - by destruct s; cbn in *; subst.
Qed.

(** [commit_transaction] by the entry it finds and by how the writes end.
    When every write returns it erases the entry and then reads the
    destroyed object; the state is the one at that read, the mutex still
    held. *)
Lemma commit_transaction_lookup (tx_id : N) (s : t) :
  transaction_mutex_ s = false ->
  commit_transaction tx_id s =
    match active_transactions_ s !! tx_id with
    | None => Throw (TransactionNotFoundException tx_id) s
    | Some transaction =>
        if Transaction.is_aborted transaction then Ret false s
        else if Transaction.is_committed transaction then Ret true s
        else
          match for_each (Transaction.log_entries transaction) write_log_entry
                  (set_transaction_mutex true s) with
          | Ret _ s1 =>
              Undefined UseAfterFree
                (set_active (delete tx_id (active_transactions_ s1)) s1)
          | Throw _ s1 =>
              Ret false
                (set_transaction_mutex false
                   (set_active (alter Transaction.mark_aborted tx_id
                                  (active_transactions_ s1)) s1))
          | Undefined u s1 => Undefined u s1
          end
    end.
Proof.
  intros Hm. unfold commit_transaction, lock_guard. rewrite Hm.
  unfold bind at 1. unfold gets at 1.
  change (active_transactions_ (set_transaction_mutex true s)) with (active_transactions_ s).
  destruct (active_transactions_ s !! tx_id) as [tx|].
  - destruct (Transaction.is_aborted tx); [by destruct s; cbn in *; subst |].
    destruct (Transaction.is_committed tx); [by destruct s; cbn in *; subst |].
    unfold try_catch. unfold bind at 1.
    destruct (for_each _ _ _) as [u s1 | e s1 | u s1]; [| done | done].
    unfold bind, update_transaction, erase, modify, ret. cbn.
    by rewrite delete_alter_eq.
  - by destruct s; cbn in *; subst.
Qed.

(** On a stream that is closed or has failed, writing a record throws and
    changes nothing. *)
Lemma write_log_entry_fails (entry : LogEntry.t) (s : t) :
  log_mutex_ s = false ->
  ofstream.is_open (log_file_ s) = false \/ ofstream.fail (log_file_ s) = true ->
  exists message, write_log_entry entry s = Throw (FileSystemException message) s.
Proof.
  intros Hm Hbad. destruct s as [w r [o fl p] m n tm lm d]. cbn in Hm, Hbad. subst lm.
  destruct o.
  - destruct Hbad as [Hbad | ->]; [done |]. eexists. reflexivity.
  - eexists. reflexivity.
Qed.

End CommitRollback.

(** * The claims *)

(** ** C1: what a commit writes *)

Section ClaimC1.
Import TransactionManager.

(** C1 (amended).  For a transaction that is in the active map and neither
    committed nor aborted, on a manager whose log stream is open, good and
    flushed and whose device has room, [commit_transaction] appends the
    staged records to the WAL file in staging order and nothing else: no
    COMMIT record follows them, and nothing is left in the buffer of the
    stream.  It then erases the transaction from the active map.  The
    outcome stops there: the next statement is the LOG_DEBUG that reads the
    erased transaction, with the mutex still held. *)
Theorem commit_transaction_writes_staged_records
    (s : t) (tx_id : N) (tx : Transaction.t) :
  transaction_mutex_ s = false ->
  log_mutex_ s = false ->
  device_full s = false ->
  log_file_ s = ofstream.mk true false [] ->
  active_transactions_ s !! tx_id = Some tx ->
  Transaction.is_aborted tx = false ->
  Transaction.is_committed tx = false ->
  commit_transaction tx_id s =
    Undefined UseAfterFree
      (set_transaction_mutex true
         (set_active (delete tx_id (active_transactions_ s))
            (set_wal_file
               (wal_file s ++ concat (LogEntry.encode <$> Transaction.log_entries tx)) s))).
Proof.
  intros Hm Hl Hd Hf Hlook Ha Hc.
  rewrite commit_transaction_lookup by done. rewrite Hlook, Ha, Hc.
  rewrite (write_all_log_entries (Transaction.log_entries tx)
             (set_transaction_mutex true s) Hl Hd Hf).
  by destruct s.
Qed.

Lemma staging_state_reached :
  (let* tx_id := begin_transaction 10 in add_log_entry tx_id one_staged_record)
    (new []) = Ret tt staging_state.
Proof. vm_compute. reflexivity. Qed.

Lemma commit_transaction_writes_staged_records_witness :
  commit_transaction 1 staging_state =
    Undefined UseAfterFree
      (mk (LogEntry.encode (LogEntry.update_checksum one_staged_record))
          true (ofstream.mk true false []) ∅ 2 true false false).
Proof.
  rewrite (commit_transaction_writes_staged_records staging_state 1
             (Transaction.mk 1 [LogEntry.update_checksum one_staged_record] 10
                             true false false));
    [| reflexivity | reflexivity | reflexivity | reflexivity | reflexivity | reflexivity
     | reflexivity].
  vm_compute. reflexivity.
Defined.

(** C1 as stated fails: when the commit of transaction 1 has written all it
    writes, the WAL ends with the last staged record; no record at all, and
    so no COMMIT record of transaction 1, follows the staged ones. *)
Lemma commit_writes_no_commit_record :
  exists s',
    commit_transaction 1 staging_state = Undefined UseAfterFree s' /\
    active_transactions_ s' !! 1 = None /\
    wal_file s' = wal_file staging_state ++
                  concat (LogEntry.encode <$> [LogEntry.update_checksum one_staged_record]) /\
    ~ exists commit_record : LogEntry.t,
        LogEntry.transaction_id commit_record = 1 /\
        wal_file s' = wal_file staging_state ++
                      concat (LogEntry.encode <$> [LogEntry.update_checksum one_staged_record]) ++
                      LogEntry.encode commit_record.
Proof.
  eexists. split; [vm_compute; reflexivity |]. split; [vm_compute; reflexivity |].
  split; [vm_compute; reflexivity |].
  intros (c & _ & Heq).
  apply (f_equal length) in Heq. cbn [wal_file staging_state app] in Heq.
  rewrite length_app in Heq.
  assert (Hlen : (0 < length (LogEntry.encode c))%nat).
  { unfold LogEntry.encode. rewrite length_app. simpl. lia. }
  vm_compute in Heq. vm_compute in Hlen. lia.
Qed.

(** [write_log_entry] does not look at the stream after [flush]: on a device
    without room the record stays in the buffer of the stream, which gets
    badbit, and the call returns as if the record had been written. *)
Lemma write_log_entry_on_full_device (entry : LogEntry.t) (s : t) :
  log_mutex_ s = false ->
  device_full s = true ->
  log_file_ s = ofstream.mk true false [] ->
  write_log_entry entry s =
    Ret tt (set_log_file (ofstream.mk true true (LogEntry.encode entry)) s).
Proof.
  intros Hm Hd Hf. destruct s as [w r f m n tm lm d]. cbn in Hm, Hd, Hf. subst.
  cbv beta iota zeta delta [write_log_entry lock_guard bind gets zoom LogEntry.serialize
    ofstream.write flush ret throw log_mutex_ log_file_ set_log_mutex set_log_file
    set_wal_file ofstream.is_open ofstream.fail ofstream.pending negb device_full andb
    wal_file wal_readable active_transactions_ next_transaction_id_ transaction_mutex_ app].
  rewrite bool_decide_eq_false_2; [done |].
  intros Hnil. apply (f_equal length) in Hnil.
  unfold LogEntry.encode in Hnil. rewrite length_app in Hnil. simpl in Hnil. lia.
Qed.

(** So a commit whose only record the device refuses goes on as a commit
    that wrote it: nothing reaches the WAL file, and the transaction is
    erased from the active map all the same. *)
Lemma commit_on_full_device_loses_record :
  exists s',
    commit_transaction 1 (set_device_full true staging_state) = Undefined UseAfterFree s' /\
    wal_file s' = [] /\
    active_transactions_ s' !! 1 = None.
Proof. eexists. repeat split; vm_compute; reflexivity. Qed.

End ClaimC1.

(** ** C2 and C3: recovery *)

Section ClaimsC2C3.

(** C2 (amended).  [recover] applies no record to the file system: the
    block manager, the inode table and the superblock are as before,
    whatever the log holds, with or without a COMMIT record for a
    transaction.  So nothing of a transaction without terminator is
    applied either. *)
Theorem recover_applies_no_record (fs : FileSystem.t) :
  exists fs',
    FileSystem.recover fs = Ret tt fs' /\
    FileSystem.block_manager_ fs' = FileSystem.block_manager_ fs /\
    FileSystem.inode_table_ fs' = FileSystem.inode_table_ fs /\
    FileSystem.superblock_ fs' = FileSystem.superblock_ fs.
Proof.
  exists fs. by rewrite FileSystem_recover_nothing.
Qed.

(** C2 as stated fails: the log holds a valid ALLOC_BLOCK record of
    transaction 1 for block 2 and a valid COMMIT record of transaction 1.
    Recovery as the specification words it marks block 2 used; after
    [recover] block 2 is still free. *)
Lemma recover_ignores_committed_records :
  TransactionManager.wal_file (FileSystem.transaction_manager_ crashed_fs) =
    concat (LogEntry.encode <$> [alloc_block_2; commit_1]) /\
  LogEntry.is_valid alloc_block_2 = true /\
  LogEntry.is_valid commit_1 = true /\
  (exists fs', FileSystem.recover crashed_fs = Ret tt fs' /\
     BlockManager.is_block_free 2 (FileSystem.block_manager_ fs') =
       Ret true (FileSystem.block_manager_ fs')) /\
  BlockManager.is_block_free 2
    (FileSystem.block_manager_ (SpecRecovery.recover [alloc_block_2; commit_1] crashed_fs))
  = Ret false
      (FileSystem.block_manager_ (SpecRecovery.recover [alloc_block_2; commit_1] crashed_fs)).
Proof.
  split; [vm_compute; reflexivity |]. split; [vm_compute; reflexivity |].
  split; [vm_compute; reflexivity |]. split; [| vm_compute; reflexivity].
  exists crashed_fs. split; [| vm_compute; reflexivity].
  apply FileSystem_recover_nothing.
Qed.

Import TransactionManager.

(** C3 (amended).  [recover] truncates nothing: it returns with the WAL
    file, and the rest of the manager, exactly as before, whatever the
    checksums of the records in the log; and its replay counts no record,
    so none whose checksum fails. *)
Theorem recover_leaves_wal_untouched (s : t) :
  recover s = Ret tt s /\ replay_log_entries s = Ret 0 s.
Proof. split; [apply recover_nothing | apply replay_log_entries_nothing]. Qed.

(** C3 as stated fails: the first record of the log fails its checksum, at
    offset 0, and after [recover] the log still holds that record and the
    one after it. *)
Lemma recover_does_not_truncate :
  let s := new (LogEntry.encode corrupt_record ++ LogEntry.encode commit_1) in
  LogEntry.is_valid corrupt_record = false /\
  exists s', recover s = Ret tt s' /\
             wal_file s' = LogEntry.encode corrupt_record ++ LogEntry.encode commit_1 /\
             wal_file s' <> take 0 (wal_file s).
Proof.
  split; [vm_compute; reflexivity |].
  eexists. split; [apply recover_nothing |]. split; [reflexivity |].
  vm_compute. discriminate.
Qed.

End ClaimsC2C3.

(** ** C4 and C5: commit and rollback on terminal states *)

Section ClaimsC4C5.
Import TransactionManager.

(** How a transaction comes to be in the map with its aborted flag set:
    the device has no room, the flush of the first record fails unnoticed,
    the write of the second one throws, and [commit_transaction] catches
    the exception, sets the flag and returns [false] without erasing. *)
Lemma full_device_state_reached :
  (let* tx_id := begin_transaction 10 in
   let* _ := add_log_entry tx_id one_staged_record in
   add_log_entry tx_id second_staged_record)
    (set_device_full true (new [])) = Ret tt full_device_state.
Proof. vm_compute. reflexivity. Qed.

Lemma aborted_state_reached :
  commit_transaction 1 full_device_state = Ret false aborted_state.
Proof. vm_compute. reflexivity. Qed.

(** C4 (amended).  On a transaction in the ABORTED state, one that is in
    the active map with its aborted flag set as a commit that failed
    leaves it, [commit_transaction] returns [false]; it throws nothing, no
    [TransactionAbortedException] in particular, and changes nothing. *)
Theorem commit_transaction_on_aborted (s : t) (tx_id : N) (tx : Transaction.t) :
  transaction_mutex_ s = false ->
  active_transactions_ s !! tx_id = Some tx ->
  Transaction.is_aborted tx = true ->
  commit_transaction tx_id s = Ret false s.
Proof.
  intros Hm Hlook Ha. rewrite commit_transaction_lookup by done.
  by rewrite Hlook, Ha.
Qed.

Lemma commit_transaction_on_aborted_witness :
  commit_transaction 1 aborted_state = Ret false aborted_state.
Proof.
  apply (commit_transaction_on_aborted aborted_state 1
           (Transaction.mk 1 [LogEntry.update_checksum one_staged_record;
                              LogEntry.update_checksum second_staged_record] 10
                           false false true));
    reflexivity.
Defined.

(** C4 as stated fails: transaction 1 is in the ABORTED state after its
    commit failed; committing it again returns [false] and throws no
    [TransactionAbortedException]. *)
Lemma commit_on_aborted_raises_nothing :
  commit_transaction 1 full_device_state = Ret false aborted_state /\
  Transaction.is_aborted <$> active_transactions_ aborted_state !! 1 = Some true /\
  commit_transaction 1 aborted_state = Ret false aborted_state /\
  forall (reason : string) (s' : t),
    commit_transaction 1 aborted_state <> Throw (TransactionAbortedException 1 reason) s'.
Proof.
  assert (H : commit_transaction 1 aborted_state = Ret false aborted_state)
    by (vm_compute; reflexivity).
  split; [vm_compute; reflexivity |]. split; [vm_compute; reflexivity |].
  split; [exact H |]. intros reason s'. rewrite H. discriminate.
Qed.




(** Where a commit that wrote its records, or a rollback, stops, the
    transaction is no longer in the map.  A build that runs on from the
    read of the erased object releases the mutex; in that state a second
    commit, a rollback after the commit and a second rollback find no entry
    and throw [TransactionNotFoundException].  The branches of the two
    functions for a committed transaction are reached by no transaction
    that a member function committed. *)
Lemma after_erase_not_found :
  (exists s1 s2,
     begin_transaction 10 (new []) = Ret 1 s1 /\
     commit_transaction 1 s1 = Undefined UseAfterFree s2 /\
     commit_transaction 1 (set_transaction_mutex false s2) =
       Throw (TransactionNotFoundException 1) (set_transaction_mutex false s2) /\
     rollback_transaction 1 (set_transaction_mutex false s2) =
       Throw (TransactionNotFoundException 1) (set_transaction_mutex false s2)) /\
  (exists s1 s2,
     begin_transaction 10 (new []) = Ret 1 s1 /\
     rollback_transaction 1 s1 = Undefined UseAfterFree s2 /\
     rollback_transaction 1 (set_transaction_mutex false s2) =
       Throw (TransactionNotFoundException 1) (set_transaction_mutex false s2)).
Proof. split; eexists _, _; repeat split; vm_compute; reflexivity. Qed.

End ClaimsC4C5.

(** ** C6 to C10: the allocators *)

Section ClaimsAllocators.

Lemma exhausted_reached :
  times 9 BlockManager.allocate_block (BlockManager.new 10 4096) = Ret tt exhausted.
Proof. vm_compute. reflexivity. Qed.

(** C6, at the input where the code departs from it.  On a device of ten
    blocks nine calls have taken every block.  The tenth [allocate_block]
    does not leave by [InsufficientSpaceException]: it reaches the second
    lock of [bitmap_mutex_] inside [get_free_block_count], with the bitmap
    unchanged.  For every other case [allocate_block_spec] confirms the
    claim. *)
Theorem allocate_block_exhausted_relocks :
  BlockManager.allocate_block exhausted =
    Undefined Relock (BlockManager.set_mutex true exhausted).
Proof. vm_compute. reflexivity. Qed.

Lemma fragmented_reached :
  (let* _ := times 9 BlockManager.allocate_block in
   let* _ := BlockManager.deallocate_block 3 in
   BlockManager.deallocate_block 7) (BlockManager.new 10 4096) = Ret tt fragmented.
Proof. vm_compute. reflexivity. Qed.

(** C7, at an input where the scattered path fails partway.  Asked for
    three blocks when blocks 3 and 7 are the free ones, the contiguous
    search finds no run, the scattered path marks blocks 3 and 7 and then
    finds none.  It puts both back: the bitmap is the one at entry.  Then,
    instead of leaving by [InsufficientSpaceException], it reaches the
    second lock of [bitmap_mutex_] inside [get_free_block_count]. *)
Theorem allocate_blocks_rollback_then_relock :
  BlockManager.allocate_blocks 3 fragmented =
    Undefined Relock
      (BlockManager.mk (BlockManager.block_bitmap_ fragmented) true 10 4096 8).
Proof. vm_compute. reflexivity. Qed.

(** C8, at the input where the code departs from it.  [deallocate_block 0]
    on a fresh manager does not fail: it returns and block 0, the
    superblock's, is now free, which [is_valid] rejects. *)
Theorem deallocate_block_zero_frees_superblock_block :
  exists s',
    BlockManager.deallocate_block 0 (BlockManager.new 10 4096) = Ret tt s' /\
    BlockManager.is_block_free 0 s' = Ret true s' /\
    BlockManager.is_valid (BlockManager.new 10 4096) =
      Ret true (BlockManager.new 10 4096) /\
    BlockManager.is_valid s' = Ret false s'.
Proof. eexists. repeat split; vm_compute; reflexivity. Qed.

Lemma full_table_reached :
  times 14 InodeTable.allocate_inode (InodeTable.new 16) = Ret tt full_table.
Proof. vm_compute. reflexivity. Qed.

Lemma times_allocate_inode_reachable (n : nat) : forall (max_inodes : N) (s s' : InodeTable.t),
  inode_table_reachable max_inodes s ->
  times n InodeTable.allocate_inode s = Ret tt s' ->
  inode_table_reachable max_inodes s'.
Proof.
  induction n as [|n IH]; intros max_inodes s s' Hs Hrun.
  - cbn in Hrun. unfold ret in Hrun. by injection Hrun as <-.
  - cbn [times] in Hrun. unfold bind in Hrun.
    destruct (InodeTable.allocate_inode s) as [i s1| |] eqn:Halloc; [| done | done].
    apply (IH max_inodes s1 s'); [| done].
    eapply rtc_r; [exact Hs |]. by eapply step_allocate_inode.
Qed.

(** C9, at the calls where the code departs from it.  A table of sixteen
    inodes reaches, by calls of [allocate_inode] and [deallocate_inode]
    only, a state in which inode 0 is marked free and in which
    [allocate_inode] returns 0: fourteen allocations take every inode and
    wrap the hint to 0, then [deallocate_inode 0]. *)
Theorem allocate_inode_returns_zero :
  inode_table_reachable 16 inode_zero_freed /\
  InodeTable.is_inode_free 0 inode_zero_freed = Ret true inode_zero_freed /\
  exists s', InodeTable.allocate_inode inode_zero_freed = Ret 0 s'.
Proof.
  split; [| split; [vm_compute; reflexivity | eexists; vm_compute; reflexivity]].
  eapply rtc_r.
  - apply (times_allocate_inode_reachable 14 16 (InodeTable.new 16) full_table).
    + apply rtc_refl.
    + apply full_table_reached.
  - apply (step_deallocate_inode full_table inode_zero_freed 0).
    vm_compute. reflexivity.
Qed.

(** The capacity the queries test against is the one the constructor was
    given. *)
Lemma new_capacity (n block_size : N) :
  BlockManager.total_blocks_ (BlockManager.new n block_size) = n /\
  InodeTable.free_size (InodeTable.new n) = n.
Proof.
  split.
  - unfold BlockManager.new. by destruct (0 <? n).
  - unfold InodeTable.free_size, InodeTable.new. cbn.
    destruct (1 <? n), (0 <? n); rewrite ?length_insert, length_replicate; lia.
Qed.

(** C10.  An id at or past the capacity is reported not free by
    [is_block_free] and by [is_inode_free], with no error, which is also
    the answer for an allocated id. *)
Theorem is_free_out_of_range
    (bm : BlockManager.t) (it : InodeTable.t) (block_id inode_num : N) :
  BlockManager.total_blocks_ bm <= block_id ->
  InodeTable.free_size it <= inode_num ->
  BlockManager.is_block_free block_id bm = Ret false bm /\
  InodeTable.is_inode_free inode_num it = Ret false it /\
  (forall allocated, allocated < BlockManager.total_blocks_ bm ->
     BlockManager.block_bitmap_ bm !! N.to_nat allocated = Some false ->
     BlockManager.is_block_free allocated bm = BlockManager.is_block_free block_id bm) /\
  (forall allocated, allocated < InodeTable.free_size it ->
     InodeTable.free_inodes_ it !! N.to_nat allocated = Some false ->
     InodeTable.is_inode_free allocated it = InodeTable.is_inode_free inode_num it).
Proof.
  intros Hb Hi.
  assert (Hblock : BlockManager.is_block_free block_id bm = Ret false bm)
    by (by apply is_block_free_out_of_range).
  assert (Hinode : InodeTable.is_inode_free inode_num it = Ret false it).
  { unfold InodeTable.is_inode_free, bind, gets.
    destruct (N.leb_spec (InodeTable.free_size it) inode_num); [done | lia]. }
  split; [done |]. split; [done |]. split.
  - intros a Ha Hbit. rewrite Hblock. by apply is_block_free_allocated.
  - intros a Ha Hbit. rewrite Hinode.
    unfold InodeTable.is_inode_free, bind, gets, InodeTable.free_get.
    destruct (N.leb_spec (InodeTable.free_size it) a); [lia |]. by rewrite Hbit.
Qed.

Lemma is_free_out_of_range_witness :
  BlockManager.is_block_free 10 (BlockManager.new 10 4096) =
    Ret false (BlockManager.new 10 4096) /\
  InodeTable.is_inode_free 16 (InodeTable.new 16) = Ret false (InodeTable.new 16).
Proof.
  destruct (is_free_out_of_range (BlockManager.new 10 4096) (InodeTable.new 16) 10 16)
    as (Hb & Hi & _).
  - vm_compute. discriminate.
  - vm_compute. discriminate.
  - split; [exact Hb | exact Hi].
Defined.

End ClaimsAllocators.

(** * Further properties of the modelled code *)

(** ** Inverting a sequence of calls *)

Lemma bind_Ret_inv {S A B} (m : M S A) (k : A -> M S B) s b s' :
  bind m k s = Ret b s' -> exists a s1, m s = Ret a s1 /\ k a s1 = Ret b s'.
Proof.
  unfold bind. destruct (m s) as [a s1| |]; [| done | done]. intros H. by exists a, s1.
Qed.

Lemma lock_guard_Ret_inv {S A} (owned : S -> bool) (set_owned : bool -> S -> S)
    (body : M S A) s a s' :
  lock_guard owned set_owned body s = Ret a s' ->
  owned s = false /\
  exists s1, body (set_owned true s) = Ret a s1 /\ s' = set_owned false s1.
Proof.
  unfold lock_guard. destruct (owned s); [done |].
  destruct (body (set_owned true s)) as [a' s1| |]; [| done | done].
  intros [= -> <-]. split; [done |]. by exists s1.
Qed.

(** ** Counting free blocks *)

Section CountFree.

Lemma count_free_bounds (bm : list bool) : forall c : N,
  c + N.of_nat (length bm) < 2 ^ 32 ->
  c <= count_free bm c <= c + N.of_nat (length bm).
Proof.
  change (2 ^ 32) with 4294967296.
  induction bm as [|b bm IH]; intros c Hc; cbn [count_free length] in *; [lia |].
  destruct b.
  - unfold u32. change (2 ^ 32) with 4294967296.
    rewrite (N.mod_small (c + 1)) by lia.
    specialize (IH (c + 1)). lia.
  - specialize (IH c). lia.
Qed.

Lemma count_free_shift (bm : list bool) : forall c : N,
  c + 1 + N.of_nat (length bm) < 2 ^ 32 ->
  count_free bm (c + 1) = count_free bm c + 1.
Proof.
  change (2 ^ 32) with 4294967296.
  induction bm as [|b bm IH]; intros c Hc; cbn [count_free length] in *; [done |].
  destruct b.
  - unfold u32. change (2 ^ 32) with 4294967296.
    rewrite !N.mod_small by lia. apply IH. lia.
  - apply IH. lia.
Qed.

Lemma count_free_insert_false (bm : list bool) : forall (k : nat) (c : N),
  bm !! k = Some true ->
  c + N.of_nat (length bm) < 2 ^ 32 ->
  count_free (<[k := false]> bm) c + 1 = count_free bm c.
Proof.
  induction bm as [|b bm IH]; intros k c Hk Hc; [done |].
  destruct k as [|k]; cbn [count_free length] in *.
  - cbn in Hk. injection Hk as ->. cbn.
    unfold u32. change (2 ^ 32) with 4294967296 in *.
    rewrite (N.mod_small (c + 1)) by lia.
    symmetry. apply count_free_shift. change (2 ^ 32) with 4294967296. lia.
  - cbn in Hk. cbn. destruct b.
    + apply IH; [done |]. unfold u32. change (2 ^ 32) with 4294967296 in *.
      rewrite N.mod_small by lia. lia.
    + apply IH; [done | lia].
Qed.

Lemma count_free_insert_true (bm : list bool) (k : nat) (c : N) :
  bm !! k = Some false ->
  c + N.of_nat (length bm) < 2 ^ 32 ->
  count_free (<[k := true]> bm) c = count_free bm c + 1.
Proof.
  intros Hk Hc.
  rewrite <- (count_free_insert_false (<[k := true]> bm) k c).
  - rewrite list_insert_insert_eq. rewrite (list_insert_id bm k false Hk). done.
  - apply list_lookup_insert_eq. by apply lookup_lt_Some in Hk.
  - by rewrite length_insert.
Qed.

Lemma count_free_replicate_true (k : nat) : forall c : N,
  c + N.of_nat k < 2 ^ 32 -> count_free (replicate k true) c = c + N.of_nat k.
Proof.
  change (2 ^ 32) with 4294967296.
  induction k as [|k IH]; intros c Hc; cbn [replicate count_free]; [lia |].
  unfold u32. change (2 ^ 32) with 4294967296.
  rewrite N.mod_small by lia. rewrite IH by lia. lia.
Qed.

Lemma count_free_replicate_false (k : nat) (c : N) :
  count_free (replicate k false) c = c.
Proof. induction k as [|k IH]; cbn [replicate count_free]; done. Qed.

Lemma count_free_app (l1 l2 : list bool) : forall c : N,
  count_free (l1 ++ l2) c = count_free l2 (count_free l1 c).
Proof. induction l1 as [|b l1 IH]; intros c; cbn; [done | apply IH]. Qed.

End CountFree.

(** ** Block manager: allocation and release together *)

Section BlockManagerMore.
Import BlockManager.

Lemma get_free_block_count_unlocked (s : t) :
  bitmap_mutex_ s = false ->
  get_free_block_count s = Ret (count_free (block_bitmap_ s) 0) s.
Proof.
  intros Hm. unfold get_free_block_count, with_lock, lock_guard, bind, gets, ret.
  rewrite Hm. cbn. by destruct s; cbn in *; subst.
Qed.

(** [deallocate_block] on an id in range: the block is free afterwards,
    whether it was or not. *)
Lemma deallocate_block_in_range (s : t) (block_id : N) :
  bitmap_mutex_ s = false ->
  N.of_nat (length (block_bitmap_ s)) = total_blocks_ s ->
  block_id < total_blocks_ s ->
  deallocate_block block_id s =
    Ret tt (set_bitmap (<[N.to_nat block_id := true]> (block_bitmap_ s)) s).
Proof.
  intros Hm Hlen Hid. unfold deallocate_block, bind, gets.
  destruct (N.leb_spec (total_blocks_ s) block_id); [lia |].
  unfold with_lock, lock_guard. rewrite Hm. unfold bitmap_get, bitmap_set.
  cbn [block_bitmap_ set_mutex].
  assert (Hlt : (N.to_nat block_id < length (block_bitmap_ s))%nat) by lia.
  destruct (lookup_lt_is_Some_2 _ _ Hlt) as [b Hb]. rewrite Hb.
  destruct b.
  - unfold ret. rewrite (list_insert_id _ _ _ Hb). by destruct s; cbn in *; subst.
  - cbn [block_bitmap_ set_mutex]. rewrite Hb. by destruct s; cbn in *; subst.
Qed.

Lemma is_valid_reserved (s : t) :
  bitmap_mutex_ s = false ->
  N.of_nat (length (block_bitmap_ s)) = total_blocks_ s ->
  block_bitmap_ s !! 0%nat = Some false ->
  is_valid s = Ret true s.
Proof.
  intros Hm Hlen H0. unfold is_valid, with_lock, lock_guard. rewrite Hm.
  unfold bind, gets, ret, bitmap_get. cbn [block_bitmap_ total_blocks_ set_mutex].
  rewrite Hlen, N.eqb_refl. cbn [negb].
  assert (0 < total_blocks_ s) by (apply lookup_lt_Some in H0; lia).
  destruct (N.ltb_spec 0 (total_blocks_ s)); [| lia].
  change (N.to_nat 0) with 0%nat. cbn [block_bitmap_ set_mutex].
  rewrite H0. by destruct s; cbn in *; subst.
Qed.

(** X1.  A block taken by [allocate_block] and given back by
    [deallocate_block] leaves the bitmap as it was before the allocation;
    only the hint has moved. *)
Theorem allocate_then_deallocate_restores_bitmap (s s1 : t) (k : N) :
  block_manager_wf s ->
  allocate_block s = Ret k s1 ->
  exists s2, deallocate_block k s1 = Ret tt s2 /\
             block_bitmap_ s2 = block_bitmap_ s /\
             block_manager_wf s2.
Proof.
  intros Hwf Halloc. pose proof (allocate_block_wf s s1 k Hwf Halloc) as Hwf1.
  destruct (allocate_block_spec s Hwf) as [(k' & [Hfree _] & Hk & Heq) | [_ Heq]];
    rewrite Heq in Halloc; [| done].
  injection Halloc as <- <-.
  destruct Hwf1 as (Hm1 & Hlen1 & Htot1 & Hhint1).
  eexists. split; [by apply deallocate_block_in_range |].
  cbn. rewrite list_insert_insert_eq, (list_insert_id _ _ _ Hfree).
  split; [done |]. destruct Hwf as (Hm & Hlen & Htot & Hhint).
  unfold block_manager_wf. cbn in *. done.
Qed.

Lemma allocate_then_deallocate_restores_bitmap_witness :
  exists s2, deallocate_block 1 (mk [false; false; true; true] false 4 4096 2) = Ret tt s2 /\
             block_bitmap_ s2 = block_bitmap_ (new 4 4096) /\
             block_manager_wf s2.
Proof.
  apply (allocate_then_deallocate_restores_bitmap (new 4 4096)).
  - unfold block_manager_wf. vm_compute. repeat split; discriminate.
  - vm_compute. reflexivity.
Defined.

(** X2.  A successful [allocate_block] lowers [get_free_block_count] by
    exactly one. *)
Theorem allocate_block_takes_one_free_block (s s1 : t) (k : N) :
  block_manager_wf s ->
  allocate_block s = Ret k s1 ->
  exists c, get_free_block_count s = Ret (c + 1) s /\
            get_free_block_count s1 = Ret c s1.
Proof.
  intros Hwf Halloc. pose proof (allocate_block_wf s s1 k Hwf Halloc) as Hwf1.
  destruct (allocate_block_spec s Hwf) as [(k' & [Hfree _] & Hk & Heq) | [_ Heq]];
    rewrite Heq in Halloc; [| done].
  injection Halloc as <- <-.
  destruct Hwf as (Hm & Hlen & Htot & Hhint). destruct Hwf1 as (Hm1 & _).
  exists (count_free (<[N.to_nat k' := false]> (block_bitmap_ s)) 0).
  rewrite !get_free_block_count_unlocked by done. cbn [block_bitmap_].
  rewrite count_free_insert_false; [done | done |].
  unfold UINT32_MAX in Htot. change (2 ^ 32) with 4294967296. lia.
Qed.

Lemma allocate_block_takes_one_free_block_witness :
  exists c, get_free_block_count (new 4 4096) = Ret (c + 1) (new 4 4096) /\
            get_free_block_count (mk [false; false; true; true] false 4 4096 2) =
              Ret c (mk [false; false; true; true] false 4 4096 2).
Proof.
  apply (allocate_block_takes_one_free_block (new 4 4096) _ 1).
  - unfold block_manager_wf. vm_compute. repeat split; discriminate.
  - vm_compute. reflexivity.
Defined.

(** X3.  [allocate_block] changes the bit of the block it returns, which
    was free, and no other bit. *)
Theorem allocate_block_changes_only_its_block (s s1 : t) (k : N) :
  block_manager_wf s ->
  allocate_block s = Ret k s1 ->
  block_bitmap_ s !! N.to_nat k = Some true /\
  block_bitmap_ s1 !! N.to_nat k = Some false /\
  forall j : nat, j <> N.to_nat k -> block_bitmap_ s1 !! j = block_bitmap_ s !! j.
Proof.
  intros Hwf Halloc.
  destruct (allocate_block_spec s Hwf) as [(k' & [Hfree _] & Hk & Heq) | [_ Heq]];
    rewrite Heq in Halloc; [| done].
  injection Halloc as <- <-. cbn. split; [done |]. split.
  - apply list_lookup_insert_eq. by apply lookup_lt_Some in Hfree.
  - intros j Hj. by apply list_lookup_insert_ne.
Qed.

Lemma allocate_block_changes_only_its_block_witness :
  block_bitmap_ (new 4 4096) !! N.to_nat 1 = Some true /\
  block_bitmap_ (mk [false; false; true; true] false 4 4096 2) !! N.to_nat 1 = Some false /\
  forall j : nat, j <> N.to_nat 1 ->
    block_bitmap_ (mk [false; false; true; true] false 4 4096 2) !! j =
    block_bitmap_ (new 4 4096) !! j.
Proof.
  apply (allocate_block_changes_only_its_block (new 4 4096) _ 1).
  - unfold block_manager_wf. vm_compute. repeat split; discriminate.
  - vm_compute. reflexivity.
Defined.

(** X4.  While block 0 is marked used, [allocate_block] never returns
    block 0, and the manager it leaves passes [is_valid]. *)
Theorem allocate_block_keeps_block_zero (s s1 : t) (k : N) :
  block_manager_wf s ->
  block_bitmap_ s !! 0%nat = Some false ->
  allocate_block s = Ret k s1 ->
  k <> 0 /\ is_valid s1 = Ret true s1.
Proof.
  intros Hwf H0 Halloc. pose proof (allocate_block_wf s s1 k Hwf Halloc) as Hwf1.
  destruct (allocate_block_spec s Hwf) as [(k' & [Hfree _] & Hk & Heq) | [_ Heq]];
    rewrite Heq in Halloc; [| done].
  injection Halloc as <- <-.
  assert (Hne : k' <> 0).
  { intros ->. change (N.to_nat 0) with 0%nat in Hfree. congruence. }
  split; [done |]. destruct Hwf1 as (Hm1 & Hlen1 & _).
  apply is_valid_reserved; [done | done |]. cbn.
  rewrite list_lookup_insert_ne; [done | lia].
Qed.

Lemma allocate_block_keeps_block_zero_witness :
  1 <> 0 /\
  is_valid (mk [false; false; true; true] false 4 4096 2) =
    Ret true (mk [false; false; true; true] false 4 4096 2).
Proof.
  apply (allocate_block_keeps_block_zero (new 4 4096) _ 1).
  - unfold block_manager_wf. vm_compute. repeat split; discriminate.
  - vm_compute. reflexivity.
  - vm_compute. reflexivity.
Defined.

(** X5.  [deallocate_block] on an id in range frees that block and no
    other, and a second [deallocate_block] of the same id returns without
    changing anything. *)
Theorem deallocate_block_twice (s : t) (block_id : N) :
  block_manager_wf s ->
  block_id < total_blocks_ s ->
  exists s1, deallocate_block block_id s = Ret tt s1 /\
             block_bitmap_ s1 !! N.to_nat block_id = Some true /\
             (forall j : nat, j <> N.to_nat block_id ->
                block_bitmap_ s1 !! j = block_bitmap_ s !! j) /\
             deallocate_block block_id s1 = Ret tt s1.
Proof.
  intros (Hm & Hlen & Htot & Hhint) Hid.
  eexists. split; [by apply deallocate_block_in_range |].
  cbn [block_bitmap_ set_bitmap].
  assert (Hlt : (N.to_nat block_id < length (block_bitmap_ s))%nat) by lia.
  split; [by apply list_lookup_insert_eq |]. split.
  - intros j Hj. by apply list_lookup_insert_ne.
  - rewrite deallocate_block_in_range; cbn; [| done | by rewrite length_insert | done].
    by rewrite list_insert_insert_eq.
Qed.

Lemma deallocate_block_twice_witness :
  exists s1, deallocate_block 1 (mk [false; false; true; true] false 4 4096 2) = Ret tt s1 /\
             block_bitmap_ s1 !! N.to_nat 1 = Some true /\
             (forall j : nat, j <> N.to_nat 1 ->
                block_bitmap_ s1 !! j = [false; false; true; true] !! j) /\
             deallocate_block 1 s1 = Ret tt s1.
Proof.
  apply (deallocate_block_twice (mk [false; false; true; true] false 4 4096 2) 1).
  - unfold block_manager_wf. vm_compute. repeat split; discriminate.
  - vm_compute. reflexivity.
Defined.

End BlockManagerMore.

(** ** Block manager: bulk release, marking, defragmentation *)

Section BlockManagerBulk.
Import BlockManager.

Lemma deallocate_blocks_loop (block_ids : list N) : forall s : t,
  N.of_nat (length (block_bitmap_ s)) = total_blocks_ s ->
  exists bm',
    for_each block_ids (fun block_id =>
      let* total := gets total_blocks_ in
      if total <=? block_id then ret tt
      else
        let* is_free := bitmap_get block_id in
        if negb is_free then bitmap_set block_id true else ret tt) s
    = Ret tt (set_bitmap bm' s) /\
    length bm' = length (block_bitmap_ s) /\
    forall j : N, j < total_blocks_ s ->
      bm' !! N.to_nat j =
        if decide (j ∈ block_ids) then Some true else block_bitmap_ s !! N.to_nat j.
Proof.
  induction block_ids as [|id ids IH]; intros s Hlen.
  - exists (block_bitmap_ s). split; [by destruct s |]. split; [done |].
    intros j Hj. destruct (decide (j ∈ [])) as [Hin|]; [| done].
    by apply not_elem_of_nil in Hin.
  - set (bm1 := if total_blocks_ s <=? id then block_bitmap_ s
                else <[N.to_nat id := true]> (block_bitmap_ s)).
    assert (Hstep : forall k : unit -> M t unit,
      bind (let* total := gets total_blocks_ in
            if total <=? id then ret tt
            else
              let* is_free := bitmap_get id in
              if negb is_free then bitmap_set id true else ret tt) k s
      = k tt (set_bitmap bm1 s)).
    { intros k. unfold bm1, bind, gets, ret, bitmap_get, bitmap_set.
      destruct (N.leb_spec (total_blocks_ s) id).
      - by destruct s.
      - assert (Hlt : (N.to_nat id < length (block_bitmap_ s))%nat) by lia.
        destruct (lookup_lt_is_Some_2 _ _ Hlt) as [b Hb]. rewrite Hb.
        destruct b; cbn [negb].
        + rewrite (list_insert_id _ _ _ Hb). by destruct s.
        + by rewrite Hb. }
    assert (Hlen1 : length bm1 = length (block_bitmap_ s)).
    { unfold bm1. destruct (total_blocks_ s <=? id); [done | by rewrite length_insert]. }
    destruct (IH (set_bitmap bm1 s)) as (bm' & Hrun & Hlen' & Hbits).
    { cbn. by rewrite Hlen1. }
    exists bm'. split; [| split].
    + cbn [for_each]. rewrite Hstep. rewrite Hrun. by destruct s.
    + cbn in Hlen'. congruence.
    + intros j Hj. rewrite (Hbits j Hj). cbn [block_bitmap_ set_bitmap total_blocks_].
      destruct (decide (j ∈ ids)) as [Hin | Hnin].
      * rewrite decide_True; [done | by right].
      * destruct (decide (j = id)) as [-> | Hne].
        -- rewrite decide_True by left. unfold bm1.
           destruct (N.leb_spec (total_blocks_ s) id); [lia |].
           apply list_lookup_insert_eq. lia.
        -- rewrite decide_False.
           ++ unfold bm1. destruct (total_blocks_ s <=? id); [done |].
              apply list_lookup_insert_ne. lia.
           ++ intros Hin. apply elem_of_cons in Hin as [? | ?]; done.
Qed.

(** X6.  [deallocate_blocks] never fails: ids at or past [total_blocks_]
    are skipped, every listed block in range is free afterwards, and the
    blocks not listed keep their state. *)
Theorem deallocate_blocks_frees_listed_blocks (s : t) (block_ids : list N) :
  block_manager_wf s ->
  exists s1,
    deallocate_blocks block_ids s = Ret tt s1 /\
    block_manager_wf s1 /\
    forall j : N, j < total_blocks_ s ->
      block_bitmap_ s1 !! N.to_nat j =
        if decide (j ∈ block_ids) then Some true else block_bitmap_ s !! N.to_nat j.
Proof.
  intros (Hm & Hlen & Htot & Hhint).
  destruct (deallocate_blocks_loop block_ids (set_mutex true s)) as (bm' & Hrun & Hlen' & Hbits);
    [done |].
  exists (set_bitmap bm' s). split; [| split].
  - unfold deallocate_blocks, with_lock, lock_guard. rewrite Hm, Hrun.
    by destruct s; cbn in *; subst.
  - unfold block_manager_wf. cbn in *. by rewrite Hlen'.
  - exact Hbits.
Qed.

Lemma deallocate_blocks_frees_listed_blocks_witness :
  exists s1,
    deallocate_blocks [2; 99; 1] (mk [false; false; false; true] false 4 4096 0) =
      Ret tt s1 /\
    block_manager_wf s1 /\
    forall j : N, j < 4 ->
      block_bitmap_ s1 !! N.to_nat j =
        if decide (j ∈ [2; 99; 1]) then Some true
        else [false; false; false; true] !! N.to_nat j.
Proof.
  apply (deallocate_blocks_frees_listed_blocks
           (mk [false; false; false; true] false 4 4096 0) [2; 99; 1]).
  unfold block_manager_wf. vm_compute. repeat split; discriminate.
Defined.

(** X7.  On an id in range, after [mark_block_used] the query
    [is_block_free] answers false and after [mark_block_free] it answers
    true; on an id at or past [total_blocks_] both throw
    [BlockNotFoundException] and change nothing. *)
Theorem mark_block_then_query (s : t) (block_id : N) :
  block_manager_wf s ->
  (block_id < total_blocks_ s ->
   (exists s1, mark_block_used block_id s = Ret tt s1 /\
               is_block_free block_id s1 = Ret false s1) /\
   (exists s1, mark_block_free block_id s = Ret tt s1 /\
               is_block_free block_id s1 = Ret true s1)) /\
  (total_blocks_ s <= block_id ->
   mark_block_used block_id s = Throw (BlockNotFoundException block_id) s /\
   mark_block_free block_id s = Throw (BlockNotFoundException block_id) s).
Proof.
  intros (Hm & Hlen & Htot & Hhint). split.
  - intros Hid.
    assert (Hlt : (N.to_nat block_id < length (block_bitmap_ s))%nat) by lia.
    destruct (lookup_lt_is_Some_2 _ _ Hlt) as [b Hb].
    assert (Hq : forall v, is_block_free block_id
                   (set_bitmap (<[N.to_nat block_id := v]> (block_bitmap_ s)) s) =
                 Ret v (set_bitmap (<[N.to_nat block_id := v]> (block_bitmap_ s)) s)).
    { intros v. unfold is_block_free, bind, gets, bitmap_get.
      cbn [total_blocks_ block_bitmap_ set_bitmap].
      destruct (N.leb_spec (total_blocks_ s) block_id); [lia |].
      change (block_bitmap_ (set_bitmap ?bm s)) with bm.
      by rewrite list_lookup_insert_eq. }
    split; eexists; (split; [| apply Hq]).
    + unfold mark_block_used, bind, gets, with_lock, lock_guard, bitmap_set.
      destruct (N.leb_spec (total_blocks_ s) block_id); [lia |].
      rewrite Hm. cbn [block_bitmap_ set_mutex]. rewrite Hb.
      by destruct s; cbn in *; subst.
    + unfold mark_block_free, bind, gets, with_lock, lock_guard, bitmap_set.
      destruct (N.leb_spec (total_blocks_ s) block_id); [lia |].
      rewrite Hm. cbn [block_bitmap_ set_mutex]. rewrite Hb.
      by destruct s; cbn in *; subst.
  - intros Hid. unfold mark_block_used, mark_block_free, bind, gets.
    destruct (N.leb_spec (total_blocks_ s) block_id); [done | lia].
Qed.

Lemma mark_block_then_query_witness :
  (exists s1, mark_block_used 3 (new 4 4096) = Ret tt s1 /\
              is_block_free 3 s1 = Ret false s1) /\
  mark_block_used 4 (new 4 4096) = Throw (BlockNotFoundException 4) (new 4 4096).
Proof.
  assert (Hwf : block_manager_wf (new 4 4096))
    by (unfold block_manager_wf; vm_compute; repeat split; discriminate).
  split.
  - apply (mark_block_then_query (new 4 4096) 3 Hwf). vm_compute. reflexivity.
  - apply (mark_block_then_query (new 4 4096) 4 Hwf). vm_compute. discriminate.
Defined.

Lemma count_used_free (bm : list bool) : forall c1 c2 : N,
  c1 + c2 + N.of_nat (length bm) < 2 ^ 32 ->
  count_used bm c1 + count_free bm c2 = c1 + c2 + N.of_nat (length bm).
Proof.
  change (2 ^ 32) with 4294967296.
  induction bm as [|b bm IH]; intros c1 c2 Hc; cbn [count_used count_free length] in *;
    [lia |].
  unfold u32. change (2 ^ 32) with 4294967296. destruct b.
  - rewrite N.mod_small by lia. rewrite IH by lia. lia.
  - rewrite N.mod_small by lia. rewrite IH by lia. lia.
Qed.

Lemma clear_bits_replicate (k : nat) : forall a b : nat,
  (k <= b)%nat ->
  clear_bits (replicate a false ++ replicate b true) (N.of_nat a) k =
    Some (replicate (a + k) false ++ replicate (b - k) true).
Proof.
  induction k as [|k IH]; intros a b Hk; cbn [clear_bits].
  - by rewrite Nat.add_0_r, Nat.sub_0_r.
  - destruct b as [|b]; [lia |].
    rewrite Nat2N.id.
    rewrite lookup_app_r by (rewrite length_replicate; lia).
    rewrite length_replicate, Nat.sub_diag. cbn [replicate lookup list_lookup].
    rewrite insert_app_r_alt by (rewrite length_replicate; lia).
    rewrite length_replicate, Nat.sub_diag. cbn [insert list_insert].
    replace (replicate a false ++ false :: replicate b true)
      with (replicate (S a) false ++ replicate b true).
    + replace (N.of_nat a + 1) with (N.of_nat (S a)) by lia.
      rewrite IH by lia.
      replace (S a + k)%nat with (a + S k)%nat by lia.
      by replace (S b - S k)%nat with (b - k)%nat by lia.
    + rewrite replicate_S_end. by rewrite <- app_assoc.
Qed.

(** X8.  [defragment_blocks] keeps the number of free blocks: it rewrites
    the bitmap as [used] used blocks followed by the free ones and sets the
    hint to [used], so the blocks marked used afterwards are in general not
    the ones that were. *)
Theorem defragment_blocks_compacts (s : t) :
  block_manager_wf s ->
  exists used free : N,
    used + free = total_blocks_ s /\
    get_free_block_count s = Ret free s /\
    defragment_blocks s =
      Ret tt (mk (replicate (N.to_nat used) false ++ replicate (N.to_nat free) true)
                 false (total_blocks_ s) (block_size_ s) used) /\
    get_free_block_count
      (mk (replicate (N.to_nat used) false ++ replicate (N.to_nat free) true)
          false (total_blocks_ s) (block_size_ s) used) =
    Ret free (mk (replicate (N.to_nat used) false ++ replicate (N.to_nat free) true)
                 false (total_blocks_ s) (block_size_ s) used).
Proof.
  intros (Hm & Hlen & Htot & Hhint). unfold UINT32_MAX in Htot.
  pose proof (count_used_free (block_bitmap_ s) 0 0) as Hsum.
  change (2 ^ 32) with 4294967296 in Hsum.
  exists (count_used (block_bitmap_ s) 0), (count_free (block_bitmap_ s) 0).
  split; [lia |]. split; [by apply get_free_block_count_unlocked |].
  assert (Hfree : (N.to_nat (count_free (block_bitmap_ s) 0)
                   = N.to_nat (total_blocks_ s) - N.to_nat (count_used (block_bitmap_ s) 0))%nat)
    by lia.
  split.
  - unfold defragment_blocks, with_lock, lock_guard. rewrite Hm.
    cbn [total_blocks_ block_bitmap_ set_mutex].
    pose proof (clear_bits_replicate (N.to_nat (count_used (block_bitmap_ s) 0)) 0
                  (N.to_nat (total_blocks_ s))) as Hclear.
    cbn [replicate app Nat.add] in Hclear. change (N.of_nat 0) with 0 in Hclear.
    rewrite Hclear by lia. rewrite Hfree. by destruct s; cbn in *; subst.
  - rewrite get_free_block_count_unlocked by done. cbn [block_bitmap_].
    rewrite count_free_app, count_free_replicate_false.
    rewrite count_free_replicate_true; [by rewrite N2Nat.id |].
    change (2 ^ 32) with 4294967296. lia.
Qed.

Lemma defragment_blocks_compacts_witness :
  exists used free : N,
    used + free = 4 /\
    get_free_block_count (mk [false; true; false; true] false 4 4096 3) =
      Ret free (mk [false; true; false; true] false 4 4096 3) /\
    defragment_blocks (mk [false; true; false; true] false 4 4096 3) =
      Ret tt (mk (replicate (N.to_nat used) false ++ replicate (N.to_nat free) true)
                 false 4 4096 used) /\
    get_free_block_count
      (mk (replicate (N.to_nat used) false ++ replicate (N.to_nat free) true)
          false 4 4096 used) =
    Ret free (mk (replicate (N.to_nat used) false ++ replicate (N.to_nat free) true)
                 false 4 4096 used).
Proof.
  apply (defragment_blocks_compacts (mk [false; true; false; true] false 4 4096 3)).
  unfold block_manager_wf. vm_compute. repeat split; discriminate.
Defined.

(** X9.  A manager built for [n] blocks, [n] fitting [uint32_t], is well
    formed and passes [is_valid]; all blocks but block 0 are free, so
    [get_free_block_count] is [n - 1] (0 for the empty device). *)
Theorem new_block_manager_free_count (n block_size : N) :
  n <= UINT32_MAX ->
  block_manager_wf (new n block_size) /\
  is_valid (new n block_size) = Ret true (new n block_size) /\
  get_free_block_count (new n block_size) = Ret (n - 1) (new n block_size).
Proof.
  intros Hn. pose proof (wf_new n block_size Hn) as Hwf. split; [done |].
  destruct Hwf as (Hm & Hlen & _ & _). unfold UINT32_MAX in Hn.
  rewrite get_free_block_count_unlocked by done.
  destruct (N.to_nat n) as [|m] eqn:Hm'.
  - assert (n = 0) as -> by lia. split; vm_compute; reflexivity.
  - assert (Hpos : (0 <? n) = true) by (apply N.ltb_lt; lia).
    split.
    + apply is_valid_reserved; [done | done |].
      unfold new. rewrite Hpos, Hm'. done.
    + unfold new. rewrite Hpos, Hm'. cbn [block_bitmap_ replicate insert list_insert count_free].
      rewrite count_free_replicate_true; [f_equal; lia |].
      change (2 ^ 32) with 4294967296. lia.
Qed.

Lemma new_block_manager_free_count_witness :
  block_manager_wf (new 10 4096) /\
  is_valid (new 10 4096) = Ret true (new 10 4096) /\
  get_free_block_count (new 10 4096) = Ret (10 - 1) (new 10 4096).
Proof.
  apply (new_block_manager_free_count 10 4096). vm_compute. discriminate.
Defined.

End BlockManagerBulk.

(** ** Block manager: what [allocate_blocks] returns *)

Section AllocateBlocksResult.
Import BlockManager.

Lemma bitmap_set_false_used (i : N) (acc : list N) (s s' : t) (u : unit) :
  bitmap_set i false s = Ret u s' ->
  all_marked_used acc s ->
  all_marked_used (acc ++ [i]) s' /\ total_blocks_ s' = total_blocks_ s.
Proof.
  unfold bitmap_set. destruct (block_bitmap_ s !! N.to_nat i) as [b|] eqn:Hi; [| done].
  intros [= _ <-] Hacc. split; [| done]. intros b' Hb'. cbn.
  destruct (decide (N.to_nat b' = N.to_nat i)) as [-> | Hne].
  - apply list_lookup_insert_eq. by apply lookup_lt_Some in Hi.
  - rewrite list_lookup_insert_ne by done.
    apply elem_of_app in Hb' as [Hb' | Hb']; [by apply Hacc |].
    apply list_elem_of_singleton in Hb' as ->. done.
Qed.

Lemma umod_Ret_inv {S} (a b r : N) (s s' : S) :
  umod a b s = Ret r s' -> s' = s.
Proof. unfold umod. destruct (b =? 0); [done |]. unfold ret. congruence. Qed.

Lemma take_run_result (n : nat) : forall (start_block j : N) (acc blocks : list N) (s s' : t),
  take_run start_block j n acc s = Ret blocks s' ->
  all_marked_used acc s ->
  length blocks = (length acc + n)%nat /\ all_marked_used blocks s'.
Proof.
  induction n as [|n IH]; intros start j acc blocks s s' Hrun Hacc.
  - cbn in Hrun. unfold ret in Hrun. injection Hrun as <- <-. split; [lia | done].
  - cbn [take_run] in Hrun.
    apply bind_Ret_inv in Hrun as (total & s1 & Hg & Hrun).
    unfold gets in Hg. injection Hg as <- <-.
    apply bind_Ret_inv in Hrun as (block_id & s1 & Hmod & Hrun).
    apply umod_Ret_inv in Hmod as ->.
    apply bind_Ret_inv in Hrun as (u & s2 & Hset & Hrun).
    destruct (bitmap_set_false_used _ _ _ _ _ Hset Hacc) as [Hacc2 _].
    destruct (IH _ _ _ _ _ _ Hrun Hacc2) as [Hlen Hused].
    rewrite length_app in Hlen. cbn in Hlen. split; [lia | done].
Qed.

Lemma find_run_result (count : N) (n : nat) :
  forall (start_block consecutive_count current_block : N) (blocks : list N) (s s' : t),
  find_run count n start_block consecutive_count current_block s = Ret (Some blocks) s' ->
  length blocks = N.to_nat count /\ all_marked_used blocks s'.
Proof.
  induction n as [|n IH]; intros start cc cur blocks s s' Hrun; [done |].
  cbn [find_run] in Hrun.
  apply bind_Ret_inv in Hrun as (total & s1 & Hg & Hrun).
  unfold gets in Hg. injection Hg as <- <-.
  apply bind_Ret_inv in Hrun as (is_free & s1 & Hget & Hrun).
  assert (s1 = s) as ->.
  { unfold bitmap_get in Hget. destruct (block_bitmap_ s !! N.to_nat cur); [| done].
    by injection Hget as _ <-. }
  destruct is_free.
  - destruct (u32 (cc + 1) =? count).
    + apply bind_Ret_inv in Hrun as (bl & s2 & Htake & Hrun).
      apply bind_Ret_inv in Hrun as (next & s3 & Hmod & Hrun).
      apply umod_Ret_inv in Hmod as ->.
      apply bind_Ret_inv in Hrun as (u & s4 & Hmodify & Hrun).
      unfold modify in Hmodify. injection Hmodify as _ <-.
      unfold ret in Hrun. injection Hrun as <- <-.
      destruct (take_run_result _ _ _ _ _ _ _ Htake) as [Hlen Hused].
      { intros b Hb. by apply not_elem_of_nil in Hb. }
      cbn in Hlen. split; [done |]. exact Hused.
    + apply bind_Ret_inv in Hrun as (cur' & s2 & Hmod & Hrun).
      apply umod_Ret_inv in Hmod as ->. by eapply IH.
  - apply bind_Ret_inv in Hrun as (start' & s2 & Hmod & Hrun).
    apply umod_Ret_inv in Hmod as ->.
    apply bind_Ret_inv in Hrun as (cur' & s2 & Hmod & Hrun).
    apply umod_Ret_inv in Hmod as ->. by eapply IH.
Qed.

Lemma scan_free_state (n : nat) : forall (i : N) (r : option N) (s s' : t),
  scan_free i n s = Ret r s' -> s' = s.
Proof.
  induction n as [|n IH]; intros i r s s' Hrun.
  - cbn in Hrun. unfold ret in Hrun. congruence.
  - cbn [scan_free] in Hrun. unfold bind, bitmap_get in Hrun.
    destruct (block_bitmap_ s !! N.to_nat i) as [[]|]; [| | done].
    + unfold ret in Hrun. congruence.
    + by eapply IH.
Qed.

Lemma find_next_free_block_state (start_index k : N) (s s' : t) :
  find_next_free_block start_index s = Ret k s' -> s' = s.
Proof.
  unfold find_next_free_block. intros Hrun.
  apply bind_Ret_inv in Hrun as (total & s1 & Hg & Hrun).
  unfold gets in Hg. injection Hg as <- <-.
  apply bind_Ret_inv in Hrun as (r & s1 & Hscan & Hrun).
  apply scan_free_state in Hscan as ->.
  destruct r; [unfold ret in Hrun; congruence |].
  apply bind_Ret_inv in Hrun as (r & s1 & Hscan & Hrun).
  apply scan_free_state in Hscan as ->.
  destruct r; unfold ret in Hrun; congruence.
Qed.

Lemma allocate_individually_result (count : N) (n : nat) :
  forall (acc blocks : list N) (s s' : t),
  allocate_individually count n acc s = Ret blocks s' ->
  all_marked_used acc s ->
  length blocks = (length acc + n)%nat /\ all_marked_used blocks s'.
Proof.
  induction n as [|n IH]; intros acc blocks s s' Hrun Hacc.
  - cbn in Hrun. unfold ret in Hrun. injection Hrun as <- <-. split; [lia | done].
  - cbn [allocate_individually] in Hrun.
    apply bind_Ret_inv in Hrun as (hint & s1 & Hg & Hrun).
    unfold gets in Hg. injection Hg as <- <-.
    apply bind_Ret_inv in Hrun as (block_id & s1 & Hfind & Hrun).
    apply find_next_free_block_state in Hfind as ->.
    destruct (block_id =? UINT32_MAX).
    + apply bind_Ret_inv in Hrun as (u & s2 & _ & Hrun).
      apply bind_Ret_inv in Hrun as (c & s3 & _ & Hrun). done.
    + apply bind_Ret_inv in Hrun as (u & s2 & Hset & Hrun).
      destruct (bitmap_set_false_used _ _ _ _ _ Hset Hacc) as [Hacc2 _].
      apply bind_Ret_inv in Hrun as (total & s3 & Hg & Hrun).
      unfold gets in Hg. injection Hg as <- <-.
      apply bind_Ret_inv in Hrun as (next & s3 & Hmod & Hrun).
      apply umod_Ret_inv in Hmod as ->.
      apply bind_Ret_inv in Hrun as (u' & s4 & Hmodify & Hrun).
      unfold modify in Hmodify. injection Hmodify as _ <-.
      destruct (IH _ _ _ _ Hrun) as [Hlen Hused]; [exact Hacc2 |].
      rewrite length_app in Hlen. cbn in Hlen. split; [lia | done].
Qed.

(** X10.  Whenever [allocate_blocks] returns, on either path, it returns
    exactly [count] blocks and each of them is marked used in the bitmap it
    leaves. *)
Theorem allocate_blocks_returns_count_used_blocks
    (count : N) (blocks : list N) (s s' : t) :
  allocate_blocks count s = Ret blocks s' ->
  length blocks = N.to_nat count /\
  forall b : N, b ∈ blocks -> block_bitmap_ s' !! N.to_nat b = Some false.
Proof.
  unfold allocate_blocks. destruct (N.eqb_spec count 0) as [-> | Hcount].
  - unfold ret. intros [= <- <-]. split; [done |].
    intros b Hb. by apply not_elem_of_nil in Hb.
  - intros Hrun. apply lock_guard_Ret_inv in Hrun as (_ & s1 & Hrun & ->).
    apply bind_Ret_inv in Hrun as (start & s2 & Hg & Hrun).
    unfold gets in Hg. injection Hg as <- <-.
    apply bind_Ret_inv in Hrun as (total & s2 & Hg & Hrun).
    unfold gets in Hg. injection Hg as <- <-.
    apply bind_Ret_inv in Hrun as (r & s2 & Hfind & Hrun).
    destruct r as [bl|].
    + unfold ret in Hrun. injection Hrun as <- <-.
      by apply find_run_result in Hfind.
    + apply allocate_individually_result in Hrun as [Hlen Hused].
      * cbn in Hlen. split; [done | exact Hused].
      * intros b Hb. by apply not_elem_of_nil in Hb.
Qed.

Lemma allocate_blocks_returns_count_used_blocks_witness :
  length [1; 2] = N.to_nat 2 /\
  forall b : N, b ∈ [1; 2] ->
    block_bitmap_ (mk [false; false; false; true] false 4 4096 3) !! N.to_nat b = Some false.
Proof.
  apply (allocate_blocks_returns_count_used_blocks 2 [1; 2] (new 4 4096)).
  vm_compute. reflexivity.
Defined.

End AllocateBlocksResult.

(** ** Data blocks *)

Section DataBlockFacts.
Import DataBlock.

Lemma read_data_in_range (s : t) (offset size : N) :
  data_block_wf s ->
  offset < block_size_ s ->
  read_data offset size s =
    Ret (take (N.to_nat (N.min (if size =? 0 then block_size_ s - offset else size)
                               (block_size_ s - offset)))
              (drop (N.to_nat offset) (data_ s))) s.
Proof.
  intros [Hm Hlen] Hoff. destruct s as [d id bs m]. cbn in Hm, Hlen, Hoff. subst.
  cbv beta iota zeta delta [read_data  with_lock  lock_guard  bind  gets  ret set_mutex set_data data_ block_size_ data_mutex_ block_id_].
  destruct (N.leb_spec (N.of_nat (length d)) offset); [lia |].
  destruct (N.ltb_spec (N.of_nat (length d))
              (offset + N.min (if size =? 0 then N.of_nat (length d) - offset else size)
                              (N.of_nat (length d) - offset))); [lia |].
  done.
Qed.

(** X11.  A sequence of at least one byte that [write_data] stores at an
    offset is what [read_data] returns for that offset and that length, and
    the bytes outside the written range are left as they were.  (A write of
    no byte is left out: [read_data] takes the length 0 to mean the rest of
    the block.) *)
Theorem write_data_then_read_data (s : t) (data : list byte) (offset : N) :
  data_block_wf s ->
  data <> [] ->
  offset + N.of_nat (length data) <= block_size_ s ->
  exists s1,
    write_data data offset s = Ret true s1 /\
    data_block_wf s1 /\
    read_data offset (N.of_nat (length data)) s1 = Ret data s1 /\
    forall i : nat, (i < N.to_nat offset \/ N.to_nat offset + length data <= i)%nat ->
      data_ s1 !! i = data_ s !! i.
Proof.
  intros [Hm Hlen] Hne Hfit.
  assert (Hpos : (0 < length data)%nat) by (destruct data; [done | cbn; lia]).
  set (d1 := take (N.to_nat offset) (data_ s) ++ data ++
             drop (N.to_nat offset + length data) (data_ s)).
  assert (Hlen1 : length d1 = length (data_ s)).
  { unfold d1. rewrite !length_app, length_take, length_drop. lia. }
  exists (set_data d1 s).
  assert (Hwf1 : data_block_wf (set_data d1 s)).
  { split; [done |]. cbn. by rewrite Hlen1. }
  split; [| split; [done | split]].
  - clear Hwf1 Hlen1. unfold d1. clear d1.
    destruct s as [d id bs m]. cbn in Hm, Hlen, Hfit |- *. subst.
    cbv beta iota zeta delta [write_data  with_lock  lock_guard  bind  gets  ret  modify set_mutex set_data data_ block_size_ data_mutex_ block_id_].
    destruct (N.leb_spec (N.of_nat (length d)) offset); [lia |].
    destruct (N.ltb_spec (N.of_nat (length d)) (offset + N.of_nat (length data))); [lia |].
    cbv beta iota.
    destruct (N.ltb_spec (N.of_nat (length d)) (offset + N.of_nat (length data))); [lia |].
    done.
  - rewrite read_data_in_range; [| done | cbn; lia].
    cbn [block_size_ data_ set_data]. f_equal.
    assert ((N.of_nat (length data) =? 0) = false) as -> by (apply N.eqb_neq; lia).
    rewrite N.min_l by lia. rewrite Nat2N.id.
    unfold d1. rewrite drop_app_length'; [| rewrite length_take; lia].
    by rewrite take_app_length.
  - intros i Hi. cbn [data_ set_data]. unfold d1. destruct Hi as [Hi | Hi].
    + rewrite lookup_app_l by (rewrite length_take; lia).
      by rewrite lookup_take_lt.
    + rewrite lookup_app_r by (rewrite length_take; lia).
      rewrite length_take. rewrite lookup_app_r by lia.
      rewrite lookup_drop. f_equal. lia.
Qed.

Lemma write_data_then_read_data_witness :
  exists s1,
    write_data [7; 8; 9] 2 (new 0 8) = Ret true s1 /\
    data_block_wf s1 /\
    read_data 2 (N.of_nat (length [7; 8; 9])) s1 = Ret [7; 8; 9] s1 /\
    forall i : nat, (i < N.to_nat 2 \/ N.to_nat 2 + length [7; 8; 9] <= i)%nat ->
      data_ s1 !! i = data_ (new 0 8) !! i.
Proof.
  apply (write_data_then_read_data (new 0 8) [7; 8; 9] 2).
  - split; reflexivity.
  - discriminate.
  - vm_compute. discriminate.
Defined.

(** X12.  [write_data] that starts at or past the end of the block, or
    that would run past it, returns [false] and leaves the block unchanged;
    so does writing no byte at all at offset [block_size_]. *)
Theorem write_data_out_of_range (s : t) (data : list byte) (offset : N) :
  data_mutex_ s = false ->
  block_size_ s < offset + N.of_nat (length data) \/ block_size_ s <= offset ->
  write_data data offset s = Ret false s.
Proof.
  intros Hm Hout. destruct s as [d id bs m]. cbn in Hm, Hout. subst.
  cbv beta iota zeta delta [write_data  with_lock  lock_guard  bind  gets  ret set_mutex set_data data_ block_size_ data_mutex_ block_id_].
  destruct (N.leb_spec bs offset); [done |].
  destruct (N.ltb_spec bs (offset + N.of_nat (length data))); [done | lia].
Qed.

Lemma write_data_out_of_range_witness :
  write_data [1; 2; 3] 6 (new 0 8) = Ret false (new 0 8) /\
  write_data [] 8 (new 0 8) = Ret false (new 0 8).
Proof.
  split.
  - apply (write_data_out_of_range (new 0 8) [1; 2; 3] 6); [reflexivity |].
    left. vm_compute. reflexivity.
  - apply (write_data_out_of_range (new 0 8) [] 8); [reflexivity |].
    right. vm_compute. discriminate.
Defined.

(** X13.  [read_data] never reads past the block: from an offset inside
    the block it returns the bytes from that offset on, [size] of them or
    as many as the block has left, and all that are left when [size] is 0;
    from an offset at or past the end it returns no byte.  The block is
    not changed. *)
Theorem read_data_clamps (s : t) (offset size : N) :
  data_block_wf s ->
  exists bytes,
    read_data offset size s = Ret bytes s /\
    N.of_nat (length bytes) =
      (if block_size_ s <=? offset then 0
       else if size =? 0 then block_size_ s - offset
       else N.min size (block_size_ s - offset)) /\
    forall i : nat, (i < length bytes)%nat ->
      bytes !! i = data_ s !! (N.to_nat offset + i)%nat.
Proof.
  intros Hwf. pose proof Hwf as [Hm Hlen].
  destruct (N.leb_spec (block_size_ s) offset) as [Hout | Hin].
  - exists []. split; [| split; [done | cbn; lia]].
    destruct s as [d id bs m]. cbn in Hm, Hout. subst.
    cbv beta iota zeta delta [read_data  with_lock  lock_guard  bind  gets  ret set_mutex set_data data_ block_size_ data_mutex_ block_id_].
    destruct (N.leb_spec bs offset); [done | lia].
  - eexists. split; [by apply read_data_in_range |]. split.
    + rewrite length_take, length_drop.
      destruct (size =? 0) eqn:Hz; [| apply N.eqb_neq in Hz]; lia.
    + intros i Hi. rewrite length_take in Hi.
      rewrite lookup_take_lt by lia. by rewrite lookup_drop.
Qed.

Lemma read_data_clamps_witness :
  exists bytes,
    read_data 6 5 (mk [1; 2; 3; 4; 5; 6; 7; 8] 0 8 false) =
      Ret bytes (mk [1; 2; 3; 4; 5; 6; 7; 8] 0 8 false) /\
    N.of_nat (length bytes) = 2 /\
    forall i : nat, (i < length bytes)%nat ->
      bytes !! i = [1; 2; 3; 4; 5; 6; 7; 8] !! (N.to_nat 6 + i)%nat.
Proof.
  apply (read_data_clamps (mk [1; 2; 3; 4; 5; 6; 7; 8] 0 8 false) 6 5).
  split; reflexivity.
Defined.

Lemma last_nonzero_S (data : list byte) (n : nat) :
  last_nonzero data (S n) =
    match data !! n with
    | Some b => if b =? 0 then last_nonzero data n else N.of_nat n + 1
    | None => last_nonzero data n
    end.
Proof. reflexivity. Qed.

Lemma last_nonzero_spec (data : list byte) (n : nat) :
  (n <= length data)%nat ->
  (N.to_nat (last_nonzero data n) <= n)%nat /\
  (forall i : nat, (N.to_nat (last_nonzero data n) <= i < n)%nat -> data !! i = Some 0) /\
  (0 < last_nonzero data n ->
   exists b, data !! (N.to_nat (last_nonzero data n) - 1)%nat = Some b /\ b <> 0).
Proof.
  unfold byte in *. induction n as [|n IH]; intros Hn.
  - cbn [last_nonzero]. split; [done |]. split; [intros i Hi; lia | intros H; lia].
  - assert (Hlt : (n < length data)%nat) by lia.
    destruct (lookup_lt_is_Some_2 _ _ Hlt) as [b Hb]. rewrite last_nonzero_S. unfold byte in *. rewrite Hb.
    destruct (N.eqb_spec b 0) as [-> | Hb0].
    + destruct IH as (Hle & Hzero & Hlast); [lia |].
      split; [lia |]. split; [| done].
      intros i Hi. destruct (decide (i = n)) as [-> | Hne]; [done |].
      apply Hzero. lia.
    + split; [lia |]. split; [intros i Hi; lia |].
      intros _. exists b. split; [| done].
      replace (N.to_nat (N.of_nat n + 1) - 1)%nat with n by lia. done.
Qed.

Lemma forallb_zero_last_nonzero (data : list byte) :
  forallb (fun b => b =? 0) data = (last_nonzero data (length data) =? 0).
Proof.
  destruct (last_nonzero_spec data (length data)) as (Hle & Hzero & Hlast); [done |].
  destruct (N.eqb_spec (last_nonzero data (length data)) 0) as [Heq | Hne].
  - apply forallb_forall. intros b Hb. apply N.eqb_eq.
    apply list_elem_of_In, list_elem_of_lookup in Hb as [i Hi].
    assert (Hlt : (i < length data)%nat) by (by apply lookup_lt_Some in Hi).
    unfold byte in *. rewrite Hzero in Hi by lia. congruence.
  - apply not_true_iff_false. intros Hall.
    destruct Hlast as (b & Hb & Hb0); [lia |].
    rewrite forallb_forall in Hall. apply Hb0, N.eqb_eq, Hall.
    apply list_elem_of_In, list_elem_of_lookup. eauto.
Qed.



(** X15.  [clear] zeroes the block and keeps its size: afterwards
    [is_empty] holds, [get_data_size] is 0 and every read returns zeros. *)
Theorem clear_empties_block (s : t) :
  data_block_wf s ->
  exists s1,
    clear s = Ret tt s1 /\
    data_block_wf s1 /\
    data_ s1 = replicate (N.to_nat (block_size_ s)) 0 /\
    is_empty s1 = Ret true s1 /\
    get_data_size s1 = Ret 0 s1.
Proof.
  intros [Hm Hlen]. destruct s as [d id bs m]. cbn in Hm, Hlen |- *. subst.
  exists (mk (replicate (length d) 0) id (N.of_nat (length d)) false).
  assert (Hzero : forall n, last_nonzero (replicate (length d) 0) n = 0).
  { induction n as [|n IH]; [done |]. rewrite last_nonzero_S. unfold byte in *.
    destruct (replicate (length d) 0 !! n) as [b|] eqn:Hb; [| done].
    apply lookup_replicate in Hb as [-> _]. done. }
  split; [| split; [| split; [| split]]].
  - done.
  - split; [done |]. cbn. by rewrite length_replicate.
  - cbn. by rewrite Nat2N.id.
  - cbv beta iota zeta delta [is_empty  with_lock  lock_guard  bind  gets  ret set_mutex set_data data_ block_size_ data_mutex_ block_id_].
    by rewrite forallb_zero_last_nonzero, Hzero.
  - cbv beta iota zeta delta [get_data_size  with_lock  lock_guard  bind  gets  ret set_mutex set_data data_ block_size_ data_mutex_ block_id_]. rewrite Hzero.
    by match goal with |- context [if ?c then _ else _] => destruct c end.
Qed.

Lemma clear_empties_block_witness :
  exists s1,
    clear (mk [0; 5; 0; 9; 0; 0] 3 6 false) = Ret tt s1 /\
    data_block_wf s1 /\
    data_ s1 = replicate (N.to_nat 6) 0 /\
    is_empty s1 = Ret true s1 /\
    get_data_size s1 = Ret 0 s1.
Proof.
  apply (clear_empties_block (mk [0; 5; 0; 9; 0; 0] 3 6 false)).
  split; reflexivity.
Defined.

(** X16.  [DataBlock::deserialize] never reads a block back: after reading
    the two 4-byte fields it compares [gcount()], which is the size of the
    last read, with 8, so on every open stream, the output of [serialize]
    included, it throws and leaves the block as it was. *)
Theorem data_block_deserialize_always_throws (s : t) (f : ifstream.t) :
  data_mutex_ s = false ->
  ifstream.is_open f = true ->
  deserialize f s =
    Throw (FileSystemException "Failed to deserialize DataBlock metadata") s.
Proof.
  intros Hm Hopen. destruct s as [d id bs m]. cbn in Hm. subst.
  unfold deserialize. rewrite Hopen. cbn [negb].
  unfold with_lock, lock_guard. cbn [data_mutex_].
  destruct (read_gcount 4 (le_bytes 4 0) f) as (b1 & f1 & -> & _ & _).
  destruct (read_gcount 4 (le_bytes 4 0) f1) as (b2 & f2 & -> & Hg & _).
  assert ((ifstream.gcount f2 =? 4 + 4) = false) as -> by (apply N.eqb_neq; lia).
  by rewrite orb_true_r.
Qed.

Lemma data_block_deserialize_always_throws_witness :
  deserialize
    (ifstream.mk true (le_bytes 4 3 ++ le_bytes 4 6 ++ [0; 5; 0; 9; 0; 0]) false false 0)
    (new 3 6) =
  Throw (FileSystemException "Failed to deserialize DataBlock metadata") (new 3 6).
Proof.
  apply (data_block_deserialize_always_throws (new 3 6)); reflexivity.
Defined.

End DataBlockFacts.

(** ** Inode table *)

Section InodeTableFacts.
Import InodeTable.

(** One search loop of [allocate_inode]: it takes the first free inode of
    its range, or falls through leaving the table as it was. *)
Lemma take_first_free_spec (n : nat) : forall (i : N) (s : t),
  (0 < n -> N.to_nat i + n <= length (free_inodes_ s))%nat ->
  free_size s <= UINT32_MAX ->
  (exists k, i <= k < i + N.of_nat n /\
     free_inodes_ s !! N.to_nat k = Some true /\
     used_between (free_inodes_ s) i k /\
     take_first_free i n s =
       Ret (Some k) (set_next ((k + 1) mod free_size s)
                      (set_free (<[N.to_nat k := false]> (free_inodes_ s)) s))) \/
  (used_between (free_inodes_ s) i (i + N.of_nat n) /\
   take_first_free i n s = Ret None s).
Proof.
  induction n as [|n IH]; intros i s Hn Hsz.
  - right. split; [intros j Hj; lia | done].
  - assert (Hlt : (N.to_nat i < length (free_inodes_ s))%nat) by lia.
    destruct (lookup_lt_is_Some_2 _ _ Hlt) as [b Hb].
    destruct b.
    + left. exists i. split; [lia |]. split; [done |]. split; [intros j Hj; lia |].
      unfold free_size, UINT32_MAX in *.
      destruct s as [ino fr m h]. cbn [free_inodes_] in *.
      cbn [take_first_free]. unfold bind at 1. unfold free_get. cbn [free_inodes_].
      rewrite Hb. unfold bind at 1. unfold free_set. cbn [free_inodes_]. rewrite Hb.
      unfold bind, gets, umod, modify, ret, free_size, set_free, set_next.
      cbn [free_inodes_ inodes_ table_mutex_ next_free_inode_].
      rewrite length_insert.
      destruct (N.eqb_spec (N.of_nat (length fr)) 0) as [H0 | _]; [lia |].
      unfold u32. change (2 ^ 32) with 4294967296. rewrite (N.mod_small (i + 1)) by lia.
      done.
    + assert (Hstep : take_first_free i (S n) s = take_first_free (i + 1) n s).
      { cbn [take_first_free]. unfold bind at 1. unfold free_get. by rewrite Hb. }
      rewrite Hstep.
      destruct (IH (i + 1) s) as [(k & Hk & Hfree & Hused & Hrun) | [Hused Hrun]];
        [lia | done | left | right].
      * exists k. split; [lia |]. split; [done |]. split; [| done].
        intros j Hj. destruct (decide (j = i)) as [-> | Hne]; [done |].
        apply Hused. lia.
      * split; [| done].
        intros j Hj. destruct (decide (j = i)) as [-> | Hne]; [done |].
        apply Hused. lia.
Qed.

Lemma get_free_inode_count_unlocked (s : t) :
  table_mutex_ s = false ->
  get_free_inode_count s = Ret (count_free (free_inodes_ s) 0) s.
Proof.
  intros Hm. destruct s as [ino fr m h]. cbn in Hm. subst. reflexivity.
Qed.

Lemma allocate_inode_unlocked (s : t) :
  table_mutex_ s = false ->
  allocate_inode s =
    match take_first_free (next_free_inode_ s)
            (N.to_nat (free_size s - next_free_inode_ s)) (set_mutex true s) with
    | Ret (Some i) s1 => Ret i (set_mutex false s1)
    | Ret None s1 =>
        match take_first_free 1 (N.to_nat (next_free_inode_ s - 1)) s1 with
        | Ret (Some i) s2 => Ret i (set_mutex false s2)
        | Ret None s2 =>
            match get_free_inode_count s2 with
            | Ret available s3 =>
                Throw (InsufficientSpaceException 1 available) (set_mutex false s3)
            | Throw e s3 => Throw e (set_mutex false s3)
            | Undefined u s3 => Undefined u s3
            end
        | Throw e s2 => Throw e (set_mutex false s2)
        | Undefined u s2 => Undefined u s2
        end
    | Throw e s1 => Throw e (set_mutex false s1)
    | Undefined u s1 => Undefined u s1
    end.
Proof.
  intros Hm. unfold allocate_inode, with_lock, lock_guard. rewrite Hm.
  unfold bind at 1. unfold gets at 1. unfold bind at 1. unfold gets at 1.
  unfold bind at 1.
  change (next_free_inode_ (set_mutex true s)) with (next_free_inode_ s).
  change (free_size (set_mutex true s)) with (free_size s).
  destruct (take_first_free _ _ _) as [[i|] s1 | |]; [reflexivity | | reflexivity | reflexivity].
  unfold bind at 1.
  destruct (take_first_free _ _ _) as [[i|] s2 | |]; [reflexivity | | reflexivity | reflexivity].
  unfold bind at 1, throw. by destruct (get_free_inode_count s2).
Qed.

(** What one call of [allocate_inode] does to a well-formed table. *)
Lemma allocate_inode_spec (s : t) :
  inode_table_wf s ->
  (exists i s',
     allocate_inode s = Ret i s' /\
     free_inodes_ s !! N.to_nat i = Some true /\
     ((next_free_inode_ s <= i /\
       used_between (free_inodes_ s) (next_free_inode_ s) i) \/
      (1 <= i < next_free_inode_ s /\
       used_between (free_inodes_ s) (next_free_inode_ s) (free_size s) /\
       used_between (free_inodes_ s) 1 i)) /\
     free_inodes_ s' = <[N.to_nat i := false]> (free_inodes_ s) /\
     inodes_ s' = inodes_ s /\
     next_free_inode_ s' = (i + 1) mod free_size s /\
     inode_table_wf s') \/
  (allocate_inode s = Undefined Relock (set_mutex true s) /\
   used_between (free_inodes_ s) (next_free_inode_ s) (free_size s) /\
   used_between (free_inodes_ s) 1 (next_free_inode_ s)).
Proof.
  intros (Hm & Hlen & Hsz & Hhint).
  rewrite (allocate_inode_unlocked s Hm).
  set (s1 := set_mutex true s).
  assert (Hfr : free_inodes_ s1 = free_inodes_ s) by done.
  assert (Hsz1 : free_size s1 = free_size s) by done.
  assert (Hwf : forall k, free_inodes_ s !! N.to_nat k = Some true ->
            inode_table_wf
              (set_mutex false
                 (set_next ((k + 1) mod free_size s)
                    (set_free (<[N.to_nat k := false]> (free_inodes_ s)) s1)))).
  { intros k Hk. apply lookup_lt_Some in Hk.
    unfold inode_table_wf, free_size, UINT32_MAX, s1, set_mutex, set_next, set_free in *.
    cbn [table_mutex_ inodes_ free_inodes_ next_free_inode_].
    rewrite length_insert. split; [done |]. split; [done |]. split; [done |].
    assert (Hpos : N.of_nat (length (free_inodes_ s)) <> 0) by lia.
    pose proof (N.mod_upper_bound (k + 1) _ Hpos). lia. }
  destruct (take_first_free_spec
              (N.to_nat (free_size s - next_free_inode_ s)) (next_free_inode_ s) s1)
    as [(k & Hk & Hfree & Hused & Hrun) | [Hused Hrun]].
  { rewrite Hfr. unfold free_size in *. lia. }
  { by rewrite Hsz1. }
  - rewrite Hfr, Hsz1 in *. left. exists k. eexists. rewrite Hrun.
    split; [reflexivity |].
    split; [done |]. split; [left; split; [lia | done] |].
    split; [done |]. split; [done |]. split; [done |]. by apply Hwf.
  - rewrite Hfr in *. rewrite Hrun.
    destruct (take_first_free_spec (N.to_nat (next_free_inode_ s - 1)) 1 s1)
      as [(k & Hk & Hfree & Hused2 & Hrun2) | [Hused2 Hrun2]].
    { rewrite Hfr. unfold free_size in *. lia. }
    { by rewrite Hsz1. }
    + rewrite Hfr, Hsz1 in *. left. exists k. eexists. rewrite Hrun2.
      split; [reflexivity |].
      split; [done |]. split.
      { right. split; [lia |]. split; [| done].
        intros j Hj. apply Hused. lia. }
      split; [done |]. split; [done |]. split; [done |]. by apply Hwf.
    + rewrite Hfr in *. right. rewrite Hrun2. split; [reflexivity |].
      split.
      { intros j Hj. apply Hused. lia. }
      intros j Hj. apply Hused2. lia.
Qed.

(** X17.  [allocate_inode] hands out the first free inode in scan order:
    from the hint to the end of the table, then from 1 up to the hint.  The
    inode is inside the table and is not inode 0 as long as inode 0 is
    marked taken.  The call marks that inode and no other as taken, leaves
    the records alone and moves the hint past it.  When neither range holds
    a free inode the call does not throw: building the exception locks the
    table mutex a second time. *)
Theorem allocate_inode_takes_first_free_inode (s : t) :
  inode_table_wf s ->
  (exists i s',
     allocate_inode s = Ret i s' /\
     i < free_size s /\
     free_inodes_ s !! N.to_nat i = Some true /\
     (free_inodes_ s !! 0%nat = Some false -> i <> 0) /\
     ((next_free_inode_ s <= i /\
       used_between (free_inodes_ s) (next_free_inode_ s) i) \/
      (1 <= i < next_free_inode_ s /\
       used_between (free_inodes_ s) (next_free_inode_ s) (free_size s) /\
       used_between (free_inodes_ s) 1 i)) /\
     free_inodes_ s' = <[N.to_nat i := false]> (free_inodes_ s) /\
     inodes_ s' = inodes_ s /\
     next_free_inode_ s' = (i + 1) mod free_size s /\
     inode_table_wf s') \/
  (allocate_inode s = Undefined Relock (set_mutex true s) /\
   used_between (free_inodes_ s) (next_free_inode_ s) (free_size s) /\
   used_between (free_inodes_ s) 1 (next_free_inode_ s)).
Proof.
  intros Hwf.
  destruct (allocate_inode_spec s Hwf)
    as [(i & s' & Hrun & Hfree & Hrest) | Hrelock]; [left | by right].
  exists i, s'. split; [done |].
  split.
  { apply lookup_lt_Some in Hfree. unfold free_size. lia. }
  split; [done |].
  split; [| done].
  intros Hzero ->. change (N.to_nat 0) with 0%nat in Hfree. congruence.
Qed.

Lemma allocate_inode_takes_first_free_inode_witness :
  (exists i s',
     allocate_inode (new 16) = Ret i s' /\
     i < free_size (new 16) /\
     free_inodes_ (new 16) !! N.to_nat i = Some true /\
     (free_inodes_ (new 16) !! 0%nat = Some false -> i <> 0) /\
     ((next_free_inode_ (new 16) <= i /\
       used_between (free_inodes_ (new 16)) (next_free_inode_ (new 16)) i) \/
      (1 <= i < next_free_inode_ (new 16) /\
       used_between (free_inodes_ (new 16)) (next_free_inode_ (new 16)) (free_size (new 16)) /\
       used_between (free_inodes_ (new 16)) 1 i)) /\
     free_inodes_ s' = <[N.to_nat i := false]> (free_inodes_ (new 16)) /\
     inodes_ s' = inodes_ (new 16) /\
     next_free_inode_ s' = (i + 1) mod free_size (new 16) /\
     inode_table_wf s') \/
  (allocate_inode (new 16) = Undefined Relock (set_mutex true (new 16)) /\
   used_between (free_inodes_ (new 16)) (next_free_inode_ (new 16)) (free_size (new 16)) /\
   used_between (free_inodes_ (new 16)) 1 (next_free_inode_ (new 16))).
Proof.
  apply (allocate_inode_takes_first_free_inode (new 16)).
  repeat split; vm_compute; congruence.
Defined.

(** A call of [allocate_inode] that returns took a free inode. *)
Lemma allocate_inode_Ret_inv (s s' : t) (i : N) :
  inode_table_wf s ->
  allocate_inode s = Ret i s' ->
  free_inodes_ s !! N.to_nat i = Some true /\
  free_inodes_ s' = <[N.to_nat i := false]> (free_inodes_ s) /\
  inodes_ s' = inodes_ s /\
  inode_table_wf s'.
Proof.
  intros Hwf Hret.
  destruct (allocate_inode_spec s Hwf)
    as [(k & s2 & Hrun & Hfree & _ & Hfr & Hino & _ & Hwf2) | [Hrun _]];
    rewrite Hrun in Hret; [| done].
  injection Hret as <- <-. done.
Qed.

(** X18.  An inode that [allocate_inode] has just returned can be used:
    [get_inode] hands out its record, the one the table held at that index,
    [is_inode_free] answers false, and the free count has gone down by
    one. *)
Theorem allocate_inode_then_get_inode (s s' : t) (i : N) :
  inode_table_wf s ->
  allocate_inode s = Ret i s' ->
  exists inode c,
    inodes_ s !! N.to_nat i = Some inode /\
    get_inode i s' = Ret (i, inode) s' /\
    is_inode_free i s' = Ret false s' /\
    get_free_inode_count s = Ret (c + 1) s /\
    get_free_inode_count s' = Ret c s'.
Proof.
  intros Hwf Hret.
  destruct (allocate_inode_Ret_inv s s' i Hwf Hret) as (Hfree & Hfr & Hino & Hwf').
  destruct Hwf as (Hm & Hlen & Hsz & _). destruct Hwf' as (Hm' & _).
  pose proof (lookup_lt_Some _ _ _ Hfree) as Hlt.
  destruct (lookup_lt_is_Some_2 (inodes_ s) (N.to_nat i)) as [inode Hinode]; [lia |].
  exists inode, (count_free (free_inodes_ s') 0).
  split; [done |].
  rewrite (get_free_inode_count_unlocked s Hm), (get_free_inode_count_unlocked s' Hm').
  assert (Hcount : count_free (free_inodes_ s') 0 + 1 = count_free (free_inodes_ s) 0).
  { rewrite Hfr. apply count_free_insert_false; [done |].
    unfold free_size, UINT32_MAX in Hsz. change (2 ^ 32) with 4294967296. lia. }
  rewrite Hcount.
  assert (Hget : free_get i s' = Ret false s').
  { unfold free_get. rewrite Hfr. by rewrite list_lookup_insert_eq. }
  assert (Hsize : (free_size s' <=? i) = false).
  { apply N.leb_gt. unfold free_size. rewrite Hfr, length_insert. lia. }
  split; [| split; [| done]].
  - unfold get_inode. unfold bind at 1. unfold gets at 1. rewrite Hino.
    assert ((N.of_nat (length (inodes_ s)) <=? i) = false) as ->
      by (apply N.leb_gt; lia).
    unfold bind. rewrite Hget. by rewrite Hinode.
  - unfold is_inode_free. unfold bind, gets. by rewrite Hsize.
Qed.

Lemma allocate_inode_then_get_inode_witness :
  exists inode c,
    inodes_ (new 16) !! N.to_nat 2 = Some inode /\
    get_inode 2 (mk (replicate 16 Inode.default)
                    ([false; false; false] ++ replicate 13 true) false 3) =
      Ret (2, inode) (mk (replicate 16 Inode.default)
                         ([false; false; false] ++ replicate 13 true) false 3) /\
    is_inode_free 2 (mk (replicate 16 Inode.default)
                        ([false; false; false] ++ replicate 13 true) false 3) =
      Ret false (mk (replicate 16 Inode.default)
                    ([false; false; false] ++ replicate 13 true) false 3) /\
    get_free_inode_count (new 16) = Ret (c + 1) (new 16) /\
    get_free_inode_count (mk (replicate 16 Inode.default)
                             ([false; false; false] ++ replicate 13 true) false 3) =
      Ret c (mk (replicate 16 Inode.default)
                ([false; false; false] ++ replicate 13 true) false 3).
Proof.
  apply (allocate_inode_then_get_inode (new 16)).
  - repeat split; vm_compute; congruence.
  - reflexivity.
Defined.

(** What one call of [deallocate_inode] does to a well-formed table. *)
Lemma deallocate_inode_spec (s : t) (inode_num : N) :
  inode_table_wf s ->
  (free_size s <= inode_num /\
   deallocate_inode inode_num s = Throw (InodeNotFoundException inode_num) s) \/
  (free_inodes_ s !! N.to_nat inode_num = Some true /\
   deallocate_inode inode_num s = Ret tt s) \/
  (free_inodes_ s !! N.to_nat inode_num = Some false /\
   deallocate_inode inode_num s =
     Ret tt (mk (<[N.to_nat inode_num := Inode.default]> (inodes_ s))
                (<[N.to_nat inode_num := true]> (free_inodes_ s))
                false (next_free_inode_ s))).
Proof.
  intros (Hm & Hlen & Hsz & _). destruct s as [ino fr m h].
  unfold free_size in *. cbn [table_mutex_ inodes_ free_inodes_ next_free_inode_] in *.
  subst m.
  cbv beta iota zeta delta [deallocate_inode bind gets throw with_lock lock_guard free_get
    free_set inode_set set_free set_inodes set_mutex ret free_size table_mutex_ inodes_
    free_inodes_ next_free_inode_].
  destruct (N.leb_spec (N.of_nat (length fr)) inode_num) as [Hge | Hlt]; [by left |].
  right.
  destruct (lookup_lt_is_Some_2 fr (N.to_nat inode_num)) as [b Hb]; [lia |].
  destruct (lookup_lt_is_Some_2 ino (N.to_nat inode_num)) as [r Hr]; [lia |].
  rewrite Hb. destruct b; [by left |]. right. split; [done |].
  cbv beta iota. rewrite Hb. cbv beta iota. by rewrite Hr.
Qed.

(** X19.  [deallocate_inode] on an allocated inode marks it free and
    resets its record to a default-constructed [Inode]; no other bit or
    record changes and the hint stays.  From then on [get_inode] refuses the
    inode with [InodeNotFoundException], and a second [deallocate_inode] is
    a no-op. *)
Theorem deallocate_inode_resets_record (s : t) (inode_num : N) :
  inode_table_wf s ->
  free_inodes_ s !! N.to_nat inode_num = Some false ->
  exists s',
    deallocate_inode inode_num s = Ret tt s' /\
    free_inodes_ s' = <[N.to_nat inode_num := true]> (free_inodes_ s) /\
    inodes_ s' = <[N.to_nat inode_num := Inode.default]> (inodes_ s) /\
    next_free_inode_ s' = next_free_inode_ s /\
    inode_table_wf s' /\
    get_inode inode_num s' = Throw (InodeNotFoundException inode_num) s' /\
    deallocate_inode inode_num s' = Ret tt s'.
Proof.
  intros Hwf Hused.
  pose proof (lookup_lt_Some _ _ _ Hused) as Hlt.
  assert (Hwf' : inode_table_wf
            (mk (<[N.to_nat inode_num := Inode.default]> (inodes_ s))
                (<[N.to_nat inode_num := true]> (free_inodes_ s))
                false (next_free_inode_ s))).
  { destruct Hwf as (Hm & Hlen & Hsz & Hhint).
    unfold inode_table_wf, free_size in *.
    cbn [table_mutex_ inodes_ free_inodes_ next_free_inode_].
    by rewrite !length_insert. }
  destruct (deallocate_inode_spec s inode_num Hwf)
    as [[Hge _] | [[Hfree _] | [_ Hrun]]].
  { unfold free_size in Hge. lia. }
  { congruence. }
  eexists. split; [exact Hrun |].
  split; [done |]. split; [done |]. split; [done |]. split; [done |].
  assert (Hfree' : <[N.to_nat inode_num := true]> (free_inodes_ s) !! N.to_nat inode_num
                   = Some true) by (by rewrite list_lookup_insert_eq).
  split.
  - unfold get_inode. unfold bind at 1. unfold gets at 1.
    cbn [inodes_]. rewrite length_insert.
    destruct Hwf as (_ & Hlen & _).
    assert ((N.of_nat (length (inodes_ s)) <=? inode_num) = false) as ->
      by (apply N.leb_gt; lia).
    unfold bind, free_get. cbn [free_inodes_]. by rewrite Hfree'.
  - destruct (deallocate_inode_spec _ inode_num Hwf')
      as [[Hge _] | [[_ Hrun2] | [Hused2 _]]].
    + unfold free_size in Hge. cbn [free_inodes_] in Hge. rewrite length_insert in Hge. lia.
    + done.
    + cbn [free_inodes_] in Hused2. congruence.
Qed.

Lemma deallocate_inode_resets_record_witness :
  exists s',
    deallocate_inode 1 (new 16) = Ret tt s' /\
    free_inodes_ s' = <[N.to_nat 1 := true]> (free_inodes_ (new 16)) /\
    inodes_ s' = <[N.to_nat 1 := Inode.default]> (inodes_ (new 16)) /\
    next_free_inode_ s' = next_free_inode_ (new 16) /\
    inode_table_wf s' /\
    get_inode 1 s' = Throw (InodeNotFoundException 1) s' /\
    deallocate_inode 1 s' = Ret tt s'.
Proof.
  apply (deallocate_inode_resets_record (new 16) 1).
  - repeat split; vm_compute; congruence.
  - reflexivity.
Defined.

Lemma new_inode_table_wf (max_inodes : N) :
  max_inodes <= UINT32_MAX -> inode_table_wf (new max_inodes).
Proof.
  intros Hn. unfold inode_table_wf, new, free_size.
  cbn [table_mutex_ inodes_ free_inodes_ next_free_inode_].
  assert (Hlen : length
            (if 1 <? max_inodes
             then <[1%nat := false]>
                    (if 0 <? max_inodes
                     then <[0%nat := false]> (replicate (N.to_nat max_inodes) true)
                     else replicate (N.to_nat max_inodes) true)
             else if 0 <? max_inodes
                  then <[0%nat := false]> (replicate (N.to_nat max_inodes) true)
                  else replicate (N.to_nat max_inodes) true) = N.to_nat max_inodes).
  { destruct (1 <? max_inodes), (0 <? max_inodes);
      rewrite ?length_insert, length_replicate; done. }
  rewrite Hlen, length_replicate. split; [done |]. split; [done |]. lia.
Qed.

Lemma new_inode_table_size (max_inodes : N) :
  free_size (new max_inodes) = max_inodes.
Proof.
  unfold new, free_size. cbn [free_inodes_].
  destruct (1 <? max_inodes), (0 <? max_inodes);
    rewrite ?length_insert, length_replicate; lia.
Qed.

(** X20.  Every table reached from [InodeTable(max_inodes)] by calls of
    [allocate_inode] and [deallocate_inode] that return is well formed: the
    mutex is released, the record array and the bitmap keep their
    [max_inodes] entries, and the hint stays inside the table. *)
Theorem reachable_inode_table_wf (max_inodes : N) (s : t) :
  max_inodes <= UINT32_MAX ->
  inode_table_reachable max_inodes s ->
  inode_table_wf s /\ free_size s = max_inodes.
Proof.
  intros Hn Hreach. unfold inode_table_reachable in Hreach.
  apply rtc_nsteps in Hreach as [n Hsteps].
  revert s Hsteps. induction n as [|n IH]; intros s Hsteps.
  - inversion Hsteps; subst. split; [by apply new_inode_table_wf | apply new_inode_table_size].
  - apply nsteps_inv_r in Hsteps as (s0 & Hsteps & Hstep).
    destruct (IH _ Hsteps) as [Hwf Hsize].
    destruct Hstep as [s1 s2 i Hret | s1 s2 inode_num Hret].
    + destruct (allocate_inode_Ret_inv _ _ _ Hwf Hret) as (Hfree & Hfr & _ & Hwf2).
      split; [done |]. unfold free_size in *. by rewrite Hfr, length_insert.
    + destruct (deallocate_inode_spec s1 inode_num Hwf)
        as [[_ Hrun] | [[_ Hrun] | [_ Hrun]]]; rewrite Hrun in Hret; [done | |].
      * by injection Hret as <-.
      * injection Hret as <-. destruct Hwf as (Hm & Hlen & Hsz & Hhint).
        unfold inode_table_wf, free_size in *.
        cbn [table_mutex_ inodes_ free_inodes_ next_free_inode_].
        by rewrite !length_insert.
Qed.

Lemma reachable_inode_table_wf_witness :
  inode_table_wf inode_zero_freed /\ free_size inode_zero_freed = 16.
Proof.
  apply (reachable_inode_table_wf 16 inode_zero_freed).
  - vm_compute. congruence.
  - eapply rtc_r.
    + apply (times_allocate_inode_reachable 14 16 (new 16) full_table);
        [apply rtc_refl | apply full_table_reached].
    + apply (step_deallocate_inode full_table inode_zero_freed 0).
      vm_compute. reflexivity.
Defined.

(** X21.  A fresh table of [max_inodes > 2] inodes keeps inode 0 (invalid)
    and inode 1 (root) out of the free pool: [max_inodes - 2] inodes are
    free, neither reserved inode is, and the first [allocate_inode] returns
    inode 2. *)
Theorem new_inode_table_reserves_two (max_inodes : N) :
  2 < max_inodes <= UINT32_MAX ->
  get_free_inode_count (new max_inodes) = Ret (max_inodes - 2) (new max_inodes) /\
  is_inode_free 0 (new max_inodes) = Ret false (new max_inodes) /\
  is_inode_free 1 (new max_inodes) = Ret false (new max_inodes) /\
  exists s', allocate_inode (new max_inodes) = Ret 2 s'.
Proof.
  intros [Hlo Hhi].
  pose proof (new_inode_table_wf max_inodes Hhi) as Hwf.
  pose proof (new_inode_table_size max_inodes) as Hsize.
  assert (Hfr : free_inodes_ (new max_inodes) =
                false :: false :: replicate (N.to_nat (max_inodes - 2)) true).
  { unfold new. cbn [free_inodes_].
    destruct (N.ltb_spec 1 max_inodes); [| lia].
    destruct (N.ltb_spec 0 max_inodes); [| lia].
    replace (N.to_nat max_inodes) with (S (S (N.to_nat (max_inodes - 2)))) by lia.
    reflexivity. }
  split.
  { rewrite get_free_inode_count_unlocked by apply Hwf. rewrite Hfr.
    cbn [count_free]. rewrite count_free_replicate_true.
    - do 2 f_equal. lia.
    - unfold UINT32_MAX in Hhi. change (2 ^ 32) with 4294967296. lia. }
  assert (Hq : forall i, i < 2 -> is_inode_free i (new max_inodes) = Ret false (new max_inodes)).
  { intros i Hi. unfold is_inode_free. unfold bind, gets. rewrite Hsize.
    destruct (N.leb_spec max_inodes i); [lia |].
    unfold free_get. rewrite Hfr.
    destruct (decide (i = 0)) as [-> | Hne]; [done |].
    replace i with 1 by lia. done. }
  split; [apply Hq; lia |]. split; [apply Hq; lia |].
  assert (H2 : free_inodes_ (new max_inodes) !! N.to_nat 2 = Some true).
  { rewrite Hfr. change (N.to_nat 2) with 2%nat. cbn [lookup list_lookup].
    apply lookup_replicate_2. lia. }
  assert (H1 : free_inodes_ (new max_inodes) !! N.to_nat 1 = Some false) by (by rewrite Hfr).
  assert (Hhint : next_free_inode_ (new max_inodes) = 1) by done.
  destruct (allocate_inode_spec _ Hwf)
    as [(i & s' & Hrun & Hfree & Hscan & _) | (_ & Hused & _)].
  - exists s'. rewrite Hrun. f_equal.
    rewrite Hhint in Hscan. destruct Hscan as [[Hle Hused] | [Hlt _]]; [| lia].
    destruct (decide (i = 1)) as [-> | Hne1]; [congruence |].
    destruct (decide (i = 2)) as [-> | Hne2]; [done |].
    specialize (Hused 2). rewrite H2 in Hused. discriminate Hused. lia.
  - rewrite Hhint, Hsize in Hused. specialize (Hused 2). rewrite H2 in Hused.
    discriminate Hused. lia.
Qed.

Lemma new_inode_table_reserves_two_witness :
  get_free_inode_count (new 16) = Ret (16 - 2) (new 16) /\
  is_inode_free 0 (new 16) = Ret false (new 16) /\
  is_inode_free 1 (new 16) = Ret false (new 16) /\
  exists s', allocate_inode (new 16) = Ret 2 s'.
Proof.
  apply (new_inode_table_reserves_two 16). vm_compute. split; congruence.
Defined.

End InodeTableFacts.

(** ** WAL records *)

Section LogEntryFacts.
Import LogEntry.

Lemma update_checksum_set_checksum (c : N) (e : t) :
  update_checksum (set_checksum c e) = update_checksum e.
Proof. reflexivity. Qed.

(** A record that went through [update_checksum] validates. *)
Lemma update_checksum_is_valid (e : t) : is_valid (update_checksum e) = true.
Proof.
  unfold is_valid. rewrite update_checksum_set_checksum.
  change (update_checksum (update_checksum e)) with (update_checksum e).
  apply N.eqb_refl.
Qed.

(** X22.  The checksum folds the header fields together with XOR, so it
    does not tell [inode_number] from [block_number]: a record with the two
    exchanged validates exactly when the original does. *)
Theorem is_valid_blind_to_swapped_numbers
    (transaction_id operation_type inode_number block_number timestamp checksum : N)
    (old_data new_data : list byte) :
  is_valid (mk transaction_id operation_type block_number inode_number
               timestamp checksum old_data new_data) =
  is_valid (mk transaction_id operation_type inode_number block_number
               timestamp checksum old_data new_data).
Proof.
  unfold is_valid, update_checksum, set_checksum.
  cbn [LogEntry.transaction_id LogEntry.operation_type LogEntry.inode_number
       LogEntry.block_number LogEntry.timestamp LogEntry.checksum
       LogEntry.old_data LogEntry.new_data].
  assert (Hswap : forall x a b, N.lxor (N.lxor x a) b = N.lxor (N.lxor x b) a).
  { intros x a b. rewrite !N.lxor_assoc. f_equal. apply N.lxor_comm. }
  by rewrite (Hswap _ block_number inode_number).
Qed.

Lemma length_le_bytes (n : nat) : forall v : N, length (le_bytes n v) = n.
Proof. induction n as [|n IH]; intros v; cbn [le_bytes length]; [done | by rewrite IH]. Qed.

Lemma le_value_le_bytes (n : nat) : forall v : N,
  v < 256 ^ N.of_nat n -> le_value (le_bytes n v) = v.
Proof.
  induction n as [|n IH]; intros v Hv.
  - cbn in Hv |- *. lia.
  - rewrite Nat2N.inj_succ, N.pow_succ_r' in Hv.
    cbn [le_bytes le_value]. rewrite IH.
    + pose proof (N.div_mod v 256). lia.
    + apply N.Div0.div_lt_upper_bound; lia.
Qed.

Lemma le_bytes_inj (n : nat) (v w : N) :
  v < 256 ^ N.of_nat n -> w < 256 ^ N.of_nat n ->
  le_bytes n v = le_bytes n w -> v = w.
Proof.
  intros Hv Hw Heq.
  rewrite <- (le_value_le_bytes n v Hv), <- (le_value_le_bytes n w Hw). by rewrite Heq.
Qed.

(** X23.  The byte format [serialize] writes is unambiguous: two records
    whose fields fit their widths and that are written as the same bytes
    are the same record. *)
Theorem encode_injective (e1 e2 : t) :
  log_entry_wf e1 -> log_entry_wf e2 ->
  encode e1 = encode e2 -> e1 = e2.
Proof.
  intros (H1 & H2 & H3 & H4 & H5 & H6 & H7 & H8) (G1 & G2 & G3 & G4 & G5 & G6 & G7 & G8) Heq.
  destruct e1 as [t1 o1 i1 b1 ts1 c1 old1 new1], e2 as [t2 o2 i2 b2 ts2 c2 old2 new2].
  unfold encode in Heq.
  cbn [LogEntry.transaction_id LogEntry.operation_type LogEntry.inode_number
       LogEntry.block_number LogEntry.timestamp LogEntry.checksum
       LogEntry.old_data LogEntry.new_data] in *.
  unfold u32 in Heq. rewrite !N.mod_small in Heq by done.
  rewrite !Nat2N.id in Heq. rewrite !firstn_all in Heq.
  apply app_inj_1 in Heq as [E1 Heq]; [| by rewrite !length_le_bytes].
  apply app_inj_1 in Heq as [E2 Heq]; [| by rewrite !length_le_bytes].
  apply app_inj_1 in Heq as [E3 Heq]; [| by rewrite !length_le_bytes].
  apply app_inj_1 in Heq as [E4 Heq]; [| by rewrite !length_le_bytes].
  apply app_inj_1 in Heq as [E5 Heq]; [| by rewrite !length_le_bytes].
  apply app_inj_1 in Heq as [E6 Heq]; [| by rewrite !length_le_bytes].
  apply app_inj_1 in Heq as [E7 Heq]; [| by rewrite !length_le_bytes].
  apply le_bytes_inj in E1; [| done | done].
  apply le_bytes_inj in E2; [| done | done].
  apply le_bytes_inj in E3; [| done | done].
  apply le_bytes_inj in E4; [| done | done].
  apply le_bytes_inj in E5; [| done | done].
  apply le_bytes_inj in E6; [| done | done].
  apply le_bytes_inj in E7; [| done | done].
  apply Nat2N.inj in E7.
  apply app_inj_1 in Heq as [E8 Heq]; [| done].
  apply app_inj_1 in Heq as [E9 Heq]; [| by rewrite !length_le_bytes].
  by subst.
Qed.

Lemma encode_injective_witness :
  log_entry_wf one_staged_record /\
  LogEntry.update_checksum one_staged_record =
    LogEntry.mk 1 2 7 3 1000 (LogEntry.checksum (LogEntry.update_checksum one_staged_record))
                [9] [1; 2; 3].
Proof.
  split.
  - repeat split; vm_compute; reflexivity.
  - apply (encode_injective (LogEntry.update_checksum one_staged_record)
             (LogEntry.mk 1 2 7 3 1000
                (LogEntry.checksum (LogEntry.update_checksum one_staged_record))
                [9] [1; 2; 3])).
    + repeat split; vm_compute; reflexivity.
    + repeat split; vm_compute; reflexivity.
    + vm_compute. reflexivity.
Defined.

End LogEntryFacts.

(** ** Transaction manager *)

Section TransactionManagerFacts.
Import TransactionManager.

Lemma add_log_entry_lookup (tx_id : N) (entry : LogEntry.t) (s : t) :
  transaction_mutex_ s = false ->
  add_log_entry tx_id entry s =
    match active_transactions_ s !! tx_id with
    | None => Throw (TransactionNotFoundException tx_id) s
    | Some transaction =>
        if negb (Transaction.is_active transaction) then
          Throw (TransactionAbortedException tx_id "Transaction is not active") s
        else
          Ret tt (set_active
                    (alter (Transaction.add_log_entry (LogEntry.update_checksum entry))
                       tx_id (active_transactions_ s)) s)
    end.
Proof.
  intros Hm. destruct s as [w r f m n tm lm d]. cbn in Hm. subst tm.
  unfold add_log_entry, lock_guard, bind, gets. cbn.
  destruct (m !! tx_id) as [tx|]; [| done].
  by destruct (Transaction.is_active tx).
Qed.

Lemma begin_transaction_unlocked (now : N) (s : t) :
  transaction_mutex_ s = false ->
  begin_transaction now s =
    Ret (next_transaction_id_ s)
        (set_active (<[next_transaction_id_ s :=
                         Transaction.new (next_transaction_id_ s) now]>
                       (active_transactions_ s))
           (set_next_id (u64 (next_transaction_id_ s + 1)) s)).
Proof.
  intros Hm. destruct s as [w r f m n tm lm d]. cbn in Hm. subst tm. reflexivity.
Qed.

(** X24.  [add_log_entry] on an active transaction stages the record at
    the end of that transaction's list, with its checksum recomputed so
    that the staged record validates.  Nothing reaches the log: the WAL
    file and the stream are as before, and so is every other
    transaction. *)
Theorem add_log_entry_stages_checksummed_record
    (s : t) (tx_id : N) (tx : Transaction.t) (entry : LogEntry.t) :
  transaction_mutex_ s = false ->
  active_transactions_ s !! tx_id = Some tx ->
  Transaction.is_active tx = true ->
  exists s',
    add_log_entry tx_id entry s = Ret tt s' /\
    Transaction.log_entries <$> active_transactions_ s' !! tx_id =
      Some (Transaction.log_entries tx ++ [LogEntry.update_checksum entry]) /\
    LogEntry.is_valid (LogEntry.update_checksum entry) = true /\
    (forall id, id <> tx_id -> active_transactions_ s' !! id = active_transactions_ s !! id) /\
    wal_file s' = wal_file s /\ log_file_ s' = log_file_ s.
Proof.
  intros Hm Hlook Hactive. eexists. split.
  { rewrite add_log_entry_lookup by done. rewrite Hlook, Hactive. reflexivity. }
  cbn [active_transactions_ set_active wal_file log_file_].
  split; [by rewrite lookup_alter_eq, Hlook |].
  split; [apply update_checksum_is_valid |].
  split; [| done].
  intros id Hne. by rewrite lookup_alter_ne.
Qed.

Lemma add_log_entry_stages_checksummed_record_witness :
  exists s',
    add_log_entry 1 corrupt_record staging_state = Ret tt s' /\
    Transaction.log_entries <$> active_transactions_ s' !! 1 =
      Some ([LogEntry.update_checksum one_staged_record] ++
            [LogEntry.update_checksum corrupt_record]) /\
    LogEntry.is_valid (LogEntry.update_checksum corrupt_record) = true /\
    (forall id, id <> 1 ->
       active_transactions_ s' !! id = active_transactions_ staging_state !! id) /\
    wal_file s' = wal_file staging_state /\ log_file_ s' = log_file_ staging_state.
Proof.
  apply (add_log_entry_stages_checksummed_record staging_state 1
           (Transaction.mk 1 [LogEntry.update_checksum one_staged_record] 10
                           true false false) corrupt_record);
    reflexivity.
Defined.

(** X25.  [add_log_entry] refuses a transaction that is not in the active
    map with [TransactionNotFoundException] and one whose active flag is
    down (a failed commit leaves such a transaction in the map) with
    [TransactionAbortedException]; in both cases nothing is staged and the
    mutex is released. *)
Theorem add_log_entry_refuses (s : t) (tx_id : N) (entry : LogEntry.t) :
  transaction_mutex_ s = false ->
  Transaction.is_active <$> active_transactions_ s !! tx_id <> Some true ->
  add_log_entry tx_id entry s =
    match active_transactions_ s !! tx_id with
    | None => Throw (TransactionNotFoundException tx_id) s
    | Some _ => Throw (TransactionAbortedException tx_id "Transaction is not active") s
    end.
Proof.
  intros Hm Hno. rewrite add_log_entry_lookup by done.
  destruct (active_transactions_ s !! tx_id) as [tx|]; [| done].
  cbn in Hno. destruct (Transaction.is_active tx); [done | reflexivity].
Qed.

Lemma add_log_entry_refuses_witness :
  add_log_entry 1 one_staged_record terminal_state =
    match active_transactions_ terminal_state !! 1 with
    | None => Throw (TransactionNotFoundException 1) terminal_state
    | Some _ =>
        Throw (TransactionAbortedException 1 "Transaction is not active") terminal_state
    end.
Proof.
  apply (add_log_entry_refuses terminal_state 1 one_staged_record).
  - reflexivity.
  - vm_compute. congruence.
Defined.

(** X26.  [begin_transaction] hands out the manager's next id, which no
    transaction of the map has, and registers under it an active
    transaction with nothing staged.  The other transactions and the log
    are untouched, the next id goes up by one and stays above every id in
    the map. *)
Theorem begin_transaction_fresh (s : t) (now : N) :
  transaction_mutex_ s = false ->
  ids_below_next s ->
  next_transaction_id_ s + 1 < 2 ^ 64 ->
  exists s',
    begin_transaction now s = Ret (next_transaction_id_ s) s' /\
    active_transactions_ s !! next_transaction_id_ s = None /\
    active_transactions_ s' !! next_transaction_id_ s =
      Some (Transaction.new (next_transaction_id_ s) now) /\
    (forall id, id <> next_transaction_id_ s ->
       active_transactions_ s' !! id = active_transactions_ s !! id) /\
    next_transaction_id_ s' = next_transaction_id_ s + 1 /\
    ids_below_next s' /\
    is_transaction_active (next_transaction_id_ s) s' = Ret true s' /\
    wal_file s' = wal_file s /\ log_file_ s' = log_file_ s.
Proof.
  intros Hm Hbelow Hnext. eexists. split; [by apply begin_transaction_unlocked |].
  destruct s as [w r f m n tm lm d]. unfold ids_below_next in *.
  cbn [active_transactions_ next_transaction_id_ set_active set_next_id wal_file log_file_
       transaction_mutex_ wal_readable log_mutex_ device_full] in *.
  subst tm.
  assert (Hu : u64 (n + 1) = n + 1) by (unfold u64; by rewrite N.mod_small).
  rewrite Hu.
  split.
  { destruct (m !! n) as [tx|] eqn:Hl; [| done]. apply Hbelow in Hl. lia. }
  split; [by rewrite lookup_insert_eq |].
  split; [intros id Hne; by rewrite lookup_insert_ne |].
  split; [done |].
  split.
  { intros id tx Hl. destruct (decide (id = n)) as [-> | Hne]; [lia |].
    rewrite lookup_insert_ne in Hl by done. apply Hbelow in Hl. lia. }
  split; [| done].
  unfold is_transaction_active, lock_guard, bind, gets. cbn.
  by rewrite lookup_insert_eq.
Qed.

Lemma begin_transaction_fresh_witness :
  exists s',
    begin_transaction 20 staging_state = Ret (next_transaction_id_ staging_state) s' /\
    active_transactions_ staging_state !! next_transaction_id_ staging_state = None /\
    active_transactions_ s' !! next_transaction_id_ staging_state =
      Some (Transaction.new (next_transaction_id_ staging_state) 20) /\
    (forall id, id <> next_transaction_id_ staging_state ->
       active_transactions_ s' !! id = active_transactions_ staging_state !! id) /\
    next_transaction_id_ s' = next_transaction_id_ staging_state + 1 /\
    ids_below_next s' /\
    is_transaction_active (next_transaction_id_ staging_state) s' = Ret true s' /\
    wal_file s' = wal_file staging_state /\ log_file_ s' = log_file_ staging_state.
Proof.
  apply (begin_transaction_fresh staging_state 20).
  - reflexivity.
  - intros id tx Hl. unfold staging_state in Hl. cbn [active_transactions_] in Hl.
    apply lookup_singleton_Some in Hl as [<- _]. reflexivity.
  - reflexivity.
Defined.

(** X27.  A commit that cannot write stays half done.  With the log stream
    closed or failed and at least one staged record, [commit_transaction]
    returns [false], writes nothing, and leaves the transaction in the
    active map with its aborted flag set.  Nothing removes it from there:
    a second commit returns [false] and a rollback returns [true], both
    leaving the map as it is. *)
Theorem commit_transaction_on_failed_stream (s : t) (tx_id : N) (tx : Transaction.t) :
  transaction_mutex_ s = false ->
  log_mutex_ s = false ->
  ofstream.is_open (log_file_ s) = false \/ ofstream.fail (log_file_ s) = true ->
  active_transactions_ s !! tx_id = Some tx ->
  Transaction.is_aborted tx = false ->
  Transaction.is_committed tx = false ->
  Transaction.log_entries tx <> [] ->
  exists s',
    commit_transaction tx_id s = Ret false s' /\
    s' = set_active (alter Transaction.mark_aborted tx_id (active_transactions_ s)) s /\
    active_transactions_ s' !! tx_id = Some (Transaction.mark_aborted tx) /\
    commit_transaction tx_id s' = Ret false s' /\
    rollback_transaction tx_id s' = Ret true s'.
Proof.
  intros Hm Hlm Hbad Hlook Ha Hc Hne.
  eexists. split; [| split; [reflexivity |]].
  - rewrite commit_transaction_lookup by done. rewrite Hlook, Ha, Hc.
    destruct (Transaction.log_entries tx) as [|e es]; [done |].
    cbn [for_each].
    destruct (write_log_entry_fails e (set_transaction_mutex true s)) as [msg Hw];
      [done | done |].
    rewrite (bind_Throw _ _ _ _ _ Hw).
    by destruct s; cbn in *; subst.
  - assert (Hl : active_transactions_
              (set_active (alter Transaction.mark_aborted tx_id (active_transactions_ s)) s)
              !! tx_id = Some (Transaction.mark_aborted tx)).
    { cbn [active_transactions_ set_active]. by rewrite lookup_alter_eq, Hlook. }
    split; [done |]. split.
    + rewrite commit_transaction_lookup by done. by rewrite Hl.
    + rewrite rollback_transaction_lookup by done. rewrite Hl.
      cbn [Transaction.is_committed Transaction.is_aborted Transaction.mark_aborted].
      by rewrite Hc.
Qed.

Lemma commit_transaction_on_failed_stream_witness :
  exists s',
    commit_transaction 1 failed_stream_state = Ret false s' /\
    s' = set_active (alter Transaction.mark_aborted 1
                       (active_transactions_ failed_stream_state)) failed_stream_state /\
    active_transactions_ s' !! 1 =
      Some (Transaction.mark_aborted
              (Transaction.mk 1 [LogEntry.update_checksum one_staged_record] 10
                              true false false)) /\
    commit_transaction 1 s' = Ret false s' /\
    rollback_transaction 1 s' = Ret true s'.
Proof.
  apply (commit_transaction_on_failed_stream failed_stream_state 1
           (Transaction.mk 1 [LogEntry.update_checksum one_staged_record] 10
                           true false false));
    try reflexivity.
  - right. reflexivity.
  - discriminate.
Defined.

(** X28.  A transaction with nothing staged is committed without touching
    the log, whatever the state of the log stream and of the device, closed
    and failed included: [commit_transaction] erases it from the map.  It
    does not get to return [true]: the LOG_DEBUG that follows the erase
    reads the destroyed transaction, and the outcome stops there with the
    mutex held. *)
Theorem commit_transaction_nothing_staged (s : t) (tx_id : N) (tx : Transaction.t) :
  transaction_mutex_ s = false ->
  active_transactions_ s !! tx_id = Some tx ->
  Transaction.is_aborted tx = false ->
  Transaction.is_committed tx = false ->
  Transaction.log_entries tx = [] ->
  commit_transaction tx_id s =
    Undefined UseAfterFree
      (set_transaction_mutex true (set_active (delete tx_id (active_transactions_ s)) s)).
Proof.
  intros Hm Hlook Ha Hc Hnil.
  rewrite commit_transaction_lookup by done. by rewrite Hlook, Ha, Hc, Hnil.
Qed.

Lemma commit_transaction_nothing_staged_witness :
  exists s1,
    begin_transaction 10
      (mk [] true (ofstream.mk false true []) ∅ 1 false false true) = Ret 1 s1 /\
    commit_transaction 1 s1 =
      Undefined UseAfterFree
        (set_transaction_mutex true (set_active (delete 1 (active_transactions_ s1)) s1)).
Proof.
  eexists. split; [reflexivity |].
  apply (commit_transaction_nothing_staged _ 1 (Transaction.new 1 10)); reflexivity.
Defined.

(** X29.  [rollback_transaction] never writes to the log: however the call
    ends, the WAL file and the stream are as before (no ABORT record marks
    the rollback), and no other transaction changes.  A transaction that is
    neither committed nor aborted is erased from the map, its staged
    records with it; the call does not get to return [true], for the
    LOG_DEBUG that follows the erase reads the destroyed transaction. *)
Theorem rollback_transaction_writes_nothing (s : t) (tx_id : N) :
  transaction_mutex_ s = false ->
  match rollback_transaction tx_id s with
  | Ret _ s' | Throw _ s' | Undefined _ s' =>
      wal_file s' = wal_file s /\
      log_file_ s' = log_file_ s /\
      (forall id, id <> tx_id ->
         active_transactions_ s' !! id = active_transactions_ s !! id)
  end /\
  (forall tx, active_transactions_ s !! tx_id = Some tx ->
     Transaction.is_committed tx = false -> Transaction.is_aborted tx = false ->
     exists s', rollback_transaction tx_id s = Undefined UseAfterFree s' /\
                active_transactions_ s' !! tx_id = None).
Proof.
  intros Hm. rewrite rollback_transaction_lookup by done. split.
  - destruct (active_transactions_ s !! tx_id) as [tx|]; [| done].
    destruct (Transaction.is_committed tx); [done |].
    destruct (Transaction.is_aborted tx); [done |].
    cbn [active_transactions_ set_active set_transaction_mutex wal_file log_file_].
    split; [done |]. split; [done |].
    intros id Hne. by rewrite lookup_delete_ne.
  - intros tx -> -> ->. eexists. split; [reflexivity |].
    cbn [active_transactions_ set_active set_transaction_mutex].
    by rewrite lookup_delete_eq.
Qed.

Lemma rollback_transaction_writes_nothing_witness :
  match rollback_transaction 1 staging_state with
  | Ret _ s' | Throw _ s' | Undefined _ s' =>
      wal_file s' = wal_file staging_state /\
      log_file_ s' = log_file_ staging_state /\
      (forall id, id <> 1 ->
         active_transactions_ s' !! id = active_transactions_ staging_state !! id)
  end /\
  (forall tx, active_transactions_ staging_state !! 1 = Some tx ->
     Transaction.is_committed tx = false -> Transaction.is_aborted tx = false ->
     exists s', rollback_transaction 1 staging_state = Undefined UseAfterFree s' /\
                active_transactions_ s' !! 1 = None).
Proof.
  apply (rollback_transaction_writes_nothing staging_state 1). reflexivity.
Defined.

(** X30.  On a manager whose ids are all below the next id, the counter not
    about to wrap, a [TransactionGuard] that goes out of scope without
    [commit()] has its transaction rolled back by the destructor: the
    active map, the WAL and the stream are what they were before the guard
    was built, and the next id has moved by one.  The destructor does not
    complete: the rollback reads the transaction it has erased, which the
    destructor's [catch] does not intercept, and the outcome stops there
    with the mutex held. *)
Theorem transaction_guard_scope_exit_rolls_back (s : t) (now : N) :
  transaction_mutex_ s = false ->
  ids_below_next s ->
  next_transaction_id_ s + 1 < 2 ^ 64 ->
  (let* g := TransactionGuard.new now in TransactionGuard.destroy g) s =
    Undefined UseAfterFree
      (set_transaction_mutex true (set_next_id (next_transaction_id_ s + 1) s)).
Proof.
  intros Hm Hbelow Hnext.
  assert (Hnone : active_transactions_ s !! next_transaction_id_ s = None).
  { destruct (active_transactions_ s !! next_transaction_id_ s) as [tx|] eqn:Hl; [| done].
    apply Hbelow in Hl. lia. }
  unfold TransactionGuard.new.
  unfold bind at 1. unfold bind at 1.
  rewrite begin_transaction_unlocked by done. unfold ret at 1.
  unfold TransactionGuard.destroy.
  cbn [TransactionGuard.manager_ TransactionGuard.committed_ TransactionGuard.transaction_id_
       andb negb].
  unfold try_catch, bind. rewrite rollback_transaction_lookup by (by destruct s).
  cbn [active_transactions_ set_active]. rewrite lookup_insert_eq.
  cbn [Transaction.is_committed Transaction.is_aborted Transaction.new].
  rewrite delete_insert_id by done.
  unfold u64. rewrite N.mod_small by done.
  by destruct s.
Qed.

Lemma transaction_guard_scope_exit_rolls_back_witness :
  (let* g := TransactionGuard.new 20 in TransactionGuard.destroy g) staging_state =
    Undefined UseAfterFree
      (set_transaction_mutex true
         (set_next_id (next_transaction_id_ staging_state + 1) staging_state)).
Proof.
  apply (transaction_guard_scope_exit_rolls_back staging_state 20).
  - reflexivity.
  - intros id tx Hl. unfold staging_state in Hl. cbn [active_transactions_] in Hl.
    apply lookup_singleton_Some in Hl as [<- _]. reflexivity.
  - reflexivity.
Defined.

End TransactionManagerFacts.
